(** * Name resolution and lazy-sync search core of gov-watchdog

    A shallow embedding of
    - [backend/members/services.py]: the name query builder
      ([_escape_regex_special_chars], [_normalize_search_term],
      [_build_single_word_query], [_build_two_word_query],
      [_build_multi_word_query], [_build_name_search_query]) and the
      pagination arithmetic of [MemberService.search_members];
    - [backend/votes/member_matcher.py]: [MemberMatcher];
    - [backend/votes/management/commands/sync_votes.py]: the Senate branch of
      [Command._fetch_detailed_vote], [Command._transform_vote], the
      [vote_id] of [Command._store_vote] and the batch loop of
      [Command._sync_chamber_votes];
    - [backend/votes/xml_parser.py]:
      [SenateVoteXMLParser._parse_totals_from_result];
    - [backend/bills/services.py]: [BillService.fetch_bill_complete],
      [BillService.sync_recent_bills], the sync logic of
      [BillService.search_bills], the bill id parsing of
      [BillService.get_bill] and [BillService.get_bill_actions];
    - [backend/bills/views.py]: [BillActionsView.get] and
      [BillSearchView.get].

    The queries the code hands to MongoDB use [$regex] with option ["i"].
    Their meaning is given by a small PCRE fragment below (parser and
    backtracking-free position-set matcher, ASCII, caseless).  Patterns that
    leave the fragment evaluate to [Beyond], so no theorem silently depends
    on syntax that is not modelled; invalid patterns evaluate to [Fails],
    which is how MongoDB reports them (the whole query raises). *)

From Stdlib Require Import Ascii String List Bool Arith ZArith Lia.
From stdpp Require Import gmap strings.
Import ListNotations.
Set Warnings "-register-all".

(* ------------------------------------------------------------------ *)
(** ** Outcomes *)

(** [Done a]: the operation returns [a]; [Fails]: it raises (an invalid
    regular expression, a store error); [Beyond]: the input uses regular
    expression syntax outside the modelled PCRE fragment. *)
Inductive outcome (A : Type) : Type :=
| Done (a : A)
| Fails
| Beyond.
Arguments Done {A} a.
Arguments Fails {A}.
Arguments Beyond {A}.

Definition obind {A B} (o : outcome A) (k : A -> outcome B) : outcome B :=
  match o with
  | Done a => k a
  | Fails => Fails
  | Beyond => Beyond
  end.

(* ------------------------------------------------------------------ *)
(** ** ASCII characters *)

Module Chars.

Definition bs : ascii := "\"%char.
Definition nl : ascii := ascii_of_nat 10.
Definition backspace : ascii := ascii_of_nat 8.

Definition ceqb (c d : ascii) : bool := Ascii.eqb c d.

(** [str.lower] / [str.upper] on ASCII. *)
Definition lower (c : ascii) : ascii :=
  let n := nat_of_ascii c in
  if (65 <=? n) && (n <=? 90) then ascii_of_nat (n + 32) else c.
Definition upper (c : ascii) : ascii :=
  let n := nat_of_ascii c in
  if (97 <=? n) && (n <=? 122) then ascii_of_nat (n - 32) else c.

Definition is_digit (c : ascii) : bool :=
  let n := nat_of_ascii c in (48 <=? n) && (n <=? 57).
Definition is_alpha (c : ascii) : bool :=
  let n := nat_of_ascii c in
  ((65 <=? n) && (n <=? 90)) || ((97 <=? n) && (n <=? 122)).
Definition is_alnum (c : ascii) : bool := is_alpha c || is_digit c.

(** PCRE word characters (no UCP): letters, digits, underscore. *)
Definition is_word (c : ascii) : bool := is_alnum c || ceqb c "_"%char.

(** Python [str.isspace] on ASCII (also what [\s] and [str.split] use). *)
Definition is_space (c : ascii) : bool :=
  let n := nat_of_ascii c in
  ((9 <=? n) && (n <=? 13)) || ((28 <=? n) && (n <=? 32)).

(** Caseless comparison of two characters. *)
Definition ci (c d : ascii) : bool := ceqb (lower c) (lower d).

End Chars.
Import Chars.

Definition lower_s (s : string) : string :=
  string_of_list_ascii (map lower (list_ascii_of_string s)).
Definition upper_s (s : string) : string :=
  string_of_list_ascii (map upper (list_ascii_of_string s)).

(* ------------------------------------------------------------------ *)
(** ** The PCRE fragment *)

Module Rx.

Inductive regex : Type :=
| REps
| RChr (c : ascii)
| RAny
| RClass (neg : bool) (cs : list ascii)
| RBol
| REol
| RWordB
| RCat (a b : regex)
| RAlt (a b : regex)
| RStar (a : regex).

Definition is_quant (c : ascii) : bool :=
  ceqb c "*" || ceqb c "+" || ceqb c "?".

Definition quant (q : ascii) (a : regex) : regex :=
  if ceqb q "*" then RStar a
  else if ceqb q "+" then RCat a (RStar a)
  else RAlt a REps.

(** Lexical tokens; [TAtom a rep] carries whether [a] may be repeated. *)
Inductive tok :=
| TAtom (a : regex) (rep : bool)
| TBar
| TOpen
| TClose
| TQuant (q : ascii).

(** Lexer modes: normal text, after a backslash, inside a character class. *)
Inductive lstate :=
| LN
| LEsc
| LClassOpen
| LClass (neg first : bool) (acc : list ascii)
| LClassEsc (neg : bool) (acc : list ascii)
| LClassLB (neg : bool) (acc : list ascii).

Definition posix_start (c : ascii) : bool :=
  ceqb c ":" || ceqb c "." || ceqb c "=".

Definition normal_char (c : ascii) : outcome (lstate * list tok) :=
  if ceqb c bs then Done (LEsc, [])
  else if ceqb c "(" then Done (LN, [TOpen])
  else if ceqb c ")" then Done (LN, [TClose])
  else if ceqb c "|" then Done (LN, [TBar])
  else if ceqb c "." then Done (LN, [TAtom RAny true])
  else if ceqb c "^" then Done (LN, [TAtom RBol false])
  else if ceqb c "$" then Done (LN, [TAtom REol false])
  else if ceqb c "[" then Done (LClassOpen, [])
  else if is_quant c then Done (LN, [TQuant c])
  else if ceqb c "{" then Beyond
  else Done (LN, [TAtom (RChr c) true]).

(** A member of a class; [first] is true before the first member, where
    [] is a literal. *)
Definition class_char (neg first : bool) (acc : list ascii) (c : ascii)
  : outcome (lstate * list tok) :=
  if ceqb c "]" && negb first then Done (LN, [TAtom (RClass neg (rev acc)) true])
  else if ceqb c bs then Done (LClassEsc neg acc, [])
  else if ceqb c "[" then Done (LClassLB neg acc, [])
  else if ceqb c "-" then Beyond
  else Done (LClass neg false (c :: acc), []).

Definition lex_step (st : lstate) (c : ascii) : outcome (lstate * list tok) :=
  match st with
  | LN => normal_char c
  | LEsc =>
      if ceqb c "b" then Done (LN, [TAtom RWordB false])
      else if is_alnum c then Beyond
      else Done (LN, [TAtom (RChr c) true])
  | LClassOpen =>
      if posix_start c then Beyond
      else if ceqb c "^" then Done (LClass true true [], [])
      else class_char false true [] c
  | LClass neg first acc => class_char neg first acc c
  | LClassEsc neg acc =>
      (* inside a class, \b is a backspace *)
      if ceqb c "b" then Done (LClass neg false (backspace :: acc), [])
      else if is_alnum c then Beyond
      else Done (LClass neg false (c :: acc), [])
  | LClassLB neg acc =>
      if posix_start c then Beyond else class_char neg false ("["%char :: acc) c
  end.

Fixpoint lex_run (st : lstate) (s : list ascii) : outcome (lstate * list tok) :=
  match s with
  | [] => Done (st, [])
  | c :: r =>
      obind (lex_step st c) (fun '(st1, t1) =>
        obind (lex_run st1 r) (fun '(st2, t2) => Done (st2, t1 ++ t2)))
  end.

(** A pattern may not end inside an escape or a class. *)
Definition lex (s : list ascii) : outcome (list tok) :=
  obind (lex_run LN s) (fun '(st, ts) =>
    match st with LN => Done ts | _ => Fails end).

(** Parser: a stack of frames, one per open group.  A frame holds the
    finished alternatives and the current sequence, each a list of items
    (regex, repeatable, already quantified), most recent item first. *)
Definition item : Type := (regex * bool * bool)%type.
Definition frame : Type := (list (list item) * list item)%type.

Definition seq_re (cur : list item) : regex :=
  fold_left (fun acc (it : item) => RCat (fst (fst it)) acc) cur REps.

Fixpoint alt_list (x : regex) (xs : list regex) : regex :=
  match xs with
  | [] => x
  | y :: ys => RAlt x (alt_list y ys)
  end.

Definition frame_re (f : frame) : regex :=
  alt_list (seq_re (hd [] (fst f ++ [snd f]))) (map seq_re (tl (fst f ++ [snd f]))).

Definition step (t : tok) (st : list frame) : outcome (list frame) :=
  match st with
  | [] => Fails
  | (alts, cur) :: up =>
      match t with
      | TAtom a rep => Done ((alts, (a, rep, false) :: cur) :: up)
      | TBar => Done ((alts ++ [cur], []) :: up)
      | TOpen => Done (([], []) :: (alts, cur) :: up)
      | TClose =>
          match up with
          | [] => Fails (* unmatched closing parenthesis *)
          | (palts, pcur) :: up' =>
              Done ((palts, (frame_re (alts, cur), true, false) :: pcur) :: up')
          end
      | TQuant q =>
          match cur with
          | [] =>
              (* "(?", "(*", "(+" open special groups; elsewhere nothing to repeat *)
              match up, alts with
              | _ :: _, [] => Beyond
              | _, _ => Fails
              end
          | (a, rep, qd) :: cur' =>
              if rep && negb qd then Done ((alts, (quant q a, true, true) :: cur') :: up)
              else Beyond
          end
      end
  end.

Fixpoint process (ts : list tok) (st : list frame) : outcome (list frame) :=
  match ts with
  | [] => Done st
  | t :: r => obind (step t st) (process r)
  end.

Definition init : list frame := [([], [])].

Definition parse (p : list ascii) : outcome regex :=
  obind (lex p) (fun ts =>
    obind (process ts init) (fun st =>
      match st with
      | [f] => Done (frame_re f)
      | _ => Fails (* missing ) *)
      end)).

(** Matching: the set of end positions reachable from position [i] of the
    subject [s]; caseless, as with option ["i"]. *)
Section Matching.
Variable s : list ascii.

Definition at_ (i : nat) : option ascii := nth_error s i.
Definition prev (i : nat) : option ascii :=
  match i with O => None | S j => nth_error s j end.
Definition word_opt (o : option ascii) : bool :=
  match o with Some c => is_word c | None => false end.

Fixpoint star_closure (f : nat -> list nat) (fuel : nat) (acc : list nat) : list nat :=
  match fuel with
  | O => acc
  | S n => star_closure f n (nodup Nat.eq_dec (acc ++ flat_map f acc))
  end.

Definition one (p : ascii -> bool) (i : nat) : list nat :=
  match at_ i with Some d => if p d then [S i] else [] | None => [] end.

Fixpoint ends (r : regex) (i : nat) : list nat :=
  match r with
  | REps => [i]
  | RChr c => one (ci c) i
  | RAny => one (fun d => negb (ceqb d nl)) i
  | RClass neg cs => one (fun d => xorb neg (existsb (ci d) cs)) i
  | RBol => if i =? 0 then [i] else []
  | REol =>
      if (i =? length s) ||
         ((S i =? length s) && match at_ i with Some d => ceqb d nl | None => false end)
      then [i] else []
  | RWordB => if xorb (word_opt (prev i)) (word_opt (at_ i)) then [i] else []
  | RCat a b => flat_map (ends b) (ends a i)
  | RAlt a b => ends a i ++ ends b i
  | RStar a => star_closure (ends a) (S (length s)) [i]
  end.

(** Unanchored search, as [$regex] does. *)
Definition search (r : regex) : bool :=
  existsb (fun i => match ends r i with [] => false | _ :: _ => true end) (seq 0 (S (length s))).

End Matching.

End Rx.

(* ------------------------------------------------------------------ *)
(** ** Member documents and MongoDB filters *)

Record member := mkMember {
  bioguide_id : string;
  name : string;
  first_name : string;
  last_name : string;
  state : string;
  party : string;
  chamber : string
}.

Inductive field := FBioguide | FName | FFirst | FLast | FState | FParty | FChamber.

Definition get_field (m : member) (f : field) : string :=
  match f with
  | FBioguide => bioguide_id m
  | FName => name m
  | FFirst => first_name m
  | FLast => last_name m
  | FState => state m
  | FParty => party m
  | FChamber => chamber m
  end.

(** A filter document: [{}], [$or], [$and], [{f: {$regex: p, $options: "i"}}]
    and [{f: v}].  A dict with several keys is a [QAnd] of its entries. *)
Inductive query :=
| QAll
| QOr (qs : list query)
| QAnd (qs : list query)
| QRegex (f : field) (pat : list ascii)
| QEq (f : field) (v : string).

Fixpoint q_patterns (q : query) : list (list ascii) :=
  match q with
  | QAll | QEq _ _ => []
  | QOr qs | QAnd qs => flat_map q_patterns qs
  | QRegex _ p => [p]
  end.

(** MongoDB compiles every [$regex] of a filter before it evaluates any
    document: one invalid pattern makes the whole query raise. *)
Definition check_patterns (ps : list (list ascii)) : outcome unit :=
  let st := map Rx.parse ps in
  if existsb (fun o => match o with Fails => true | _ => false end) st then Fails
  else if existsb (fun o => match o with Beyond => true | _ => false end) st then Beyond
  else Done tt.

Fixpoint eval_q (q : query) (m : member) : bool :=
  match q with
  | QAll => true
  | QOr qs => existsb (fun q' => eval_q q' m) qs
  | QAnd qs => forallb (fun q' => eval_q q' m) qs
  | QRegex f p =>
      match Rx.parse p with
      | Done r => Rx.search (list_ascii_of_string (get_field m f)) r
      | _ => false
      end
  | QEq f v => String.eqb (get_field m f) v
  end.

(** Does document [m] match filter [q]? *)
Definition eval_query (q : query) (m : member) : outcome bool :=
  obind (check_patterns (q_patterns q)) (fun _ => Done (eval_q q m)).

(** [collection.find_one(q)]: the first matching document in store order. *)
Definition mongo_find_one (store : list member) (q : query) : outcome (option member) :=
  obind (check_patterns (q_patterns q)) (fun _ => Done (find (eval_q q) store)).

(* ------------------------------------------------------------------ *)
(** ** Name query builder ([members/services.py]) *)

Module Builder.

(** [special_chars = r'\.^$*+?{}[]()|\\'], character by character. *)
Definition special_chars : list ascii :=
  [bs; "."; "^"; "$"; "*"; "+"; "?"; "{"; "}"; "["; "]"; "("; ")"; "|"; bs; bs]%char.

(** [text.replace(char, f'\\{char}')] for a one-character [char]. *)
Definition py_replace_char (c : ascii) (text : list ascii) : list ascii :=
  flat_map (fun d => if ceqb d c then [bs; c] else [d]) text.

(** [_escape_regex_special_chars]: the loop over [special_chars]. *)
Definition _escape_regex_special_chars (text : list ascii) : list ascii :=
  fold_left (fun escaped c => py_replace_char c escaped) special_chars text.

Fixpoint lstrip (s : list ascii) : list ascii :=
  match s with
  | c :: r => if is_space c then lstrip r else s
  | [] => []
  end.
Definition strip (s : list ascii) : list ascii := rev (lstrip (rev (lstrip s))).

(** [re.sub(r'\s+', ' ', _)]. *)
Fixpoint collapse_aux (in_run : bool) (s : list ascii) : list ascii :=
  match s with
  | [] => []
  | c :: r =>
      if is_space c then
        if in_run then collapse_aux true r else " "%char :: collapse_aux true r
      else c :: collapse_aux false r
  end.

Definition _normalize_search_term (search_term : list ascii) : list ascii :=
  collapse_aux false (strip search_term).

(** [str.split()] with no separator. *)
Fixpoint split_aux (cur : list ascii) (s : list ascii) : list (list ascii) :=
  match s with
  | [] => match cur with [] => [] | _ => [rev cur] end
  | c :: r =>
      if is_space c then
        match cur with [] => split_aux [] r | _ => rev cur :: split_aux [] r end
      else split_aux (c :: cur) r
  end.
Definition split (s : list ascii) : list (list ascii) := split_aux [] s.

(** [f"\\b{word}"] *)
Definition wb (word : list ascii) : list ascii := [bs; "b"%char] ++ word.
Definition dotstar : list ascii := [".";"*"]%char.

Fixpoint join (sep : list ascii) (xs : list (list ascii)) : list ascii :=
  match xs with
  | [] => []
  | [x] => x
  | x :: xs' => x ++ sep ++ join sep xs'
  end.

Definition _build_single_word_query (word : list ascii) : query :=
  let pattern := wb word in
  QOr [QRegex FFirst pattern; QRegex FLast pattern; QRegex FName pattern].

Definition _build_two_word_query (first_word second_word : list ascii) : query :=
  let first_pattern := wb first_word in
  let second_pattern := wb second_word in
  QOr [QAnd [QRegex FFirst first_pattern; QRegex FLast second_pattern];
       QAnd [QRegex FFirst second_pattern; QRegex FLast first_pattern];
       QRegex FName (first_pattern ++ dotstar ++ second_pattern ++ ["|"%char]
                     ++ second_pattern ++ dotstar ++ first_pattern)].

Definition _build_multi_word_query (words : list (list ascii)) : query :=
  let full_pattern := join dotstar (map wb words) in
  let first_pattern := wb (hd [] words) in
  let last_pattern := wb (List.last words []) in
  let three :=
    match words with
    | [w0; w1; w2] =>
        [QAnd [QRegex FFirst (wb w0 ++ dotstar ++ wb w1); QRegex FLast last_pattern];
         QAnd [QRegex FFirst first_pattern; QRegex FLast (wb w1 ++ dotstar ++ wb w2)]]
    | _ => []
    end in
  QOr ([QRegex FName full_pattern;
        QAnd [QRegex FFirst first_pattern; QRegex FLast last_pattern];
        QAnd [QRegex FFirst last_pattern; QRegex FLast first_pattern]] ++ three).

Definition _build_name_search_query (search_term : list ascii) : query :=
  match _normalize_search_term search_term with
  | [] => QAll
  | normalized =>
      let escaped_parts := map _escape_regex_special_chars (split normalized) in
      match escaped_parts with
      | [w] => _build_single_word_query w
      | [w1; w2] => _build_two_word_query w1 w2
      | _ => _build_multi_word_query escaped_parts
      end
  end.

(** The predicate of a raw search string, on one member document. *)
Definition name_matches (q : string) (m : member) : outcome bool :=
  eval_query (_build_name_search_query (list_ascii_of_string q)) m.

End Builder.

(* ------------------------------------------------------------------ *)
(** ** [MemberService.search_members] (filters, count, page arithmetic) *)

Module MemberSearch.

Record search_params := mkParams {
  q : option string;
  p_state : option string;
  p_party : option string;
  p_chamber : option string;
  page : Z;
  page_size : Z
}.

(** The returned envelope; the result page itself is not modelled. *)
Record envelope := mkEnvelope {
  total : Z;
  e_page : Z;
  e_page_size : Z;
  total_pages : Z
}.

(** [if params.x:] is false for [None] and for the empty string. *)
Definition truthy (o : option string) : option string :=
  match o with Some v => if String.eqb v "" then None else Some v | None => None end.

Definition base_filters (p : search_params) : list query :=
  match truthy (p_state p) with Some v => [QEq FState (upper_s v)] | None => [] end ++
  match truthy (p_party p) with Some v => [QEq FParty (upper_s v)] | None => [] end ++
  match truthy (p_chamber p) with Some v => [QEq FChamber (lower_s v)] | None => [] end.

Definition build_query (p : search_params) : query :=
  let filters := base_filters p in
  let base := match filters with [] => QAll | _ => QAnd filters end in
  match truthy (q p) with
  | Some v =>
      match Builder.strip (list_ascii_of_string v) with
      | [] => base
      | search_term =>
          let name_query := Builder._build_name_search_query search_term in
          match filters with
          | [] => name_query
          | _ => QAnd [QAnd filters; name_query]
          end
      end
  | None => base
  end.

(** [collection.count_documents(query)]. *)
Definition count_documents (store : list member) (qr : query) : outcome Z :=
  obind (check_patterns (q_patterns qr)) (fun _ =>
    Done (Z.of_nat (length (List.filter (eval_q qr) store)))).

Definition search_members (store : list member) (p : search_params) : outcome envelope :=
  let qr := build_query p in
  obind (count_documents store qr) (fun total =>
    let total_pages := ((total + page_size p - 1) / page_size p)%Z in
    Done (mkEnvelope total (page p) (page_size p) total_pages)).

(** The sibling computation of [BillService.search_bills]. *)
Definition bills_total_pages (total page_size : Z) : Z :=
  Z.max 1 ((total + page_size - 1) / page_size)%Z.

End MemberSearch.

(* ------------------------------------------------------------------ *)
(** ** [MemberMatcher] ([votes/member_matcher.py]) *)

Module Matcher.

(** [self._member_cache]: lowercased key to bioguide id. *)
Definition cache := gmap string string.

Definition cache_key (first_name last_name state chamber : string) : string :=
  lower_s (last_name ++ "_" ++ first_name ++ "_" ++ state ++ "_" ++ chamber).

Definition exact_query (first_name last_name state chamber : string) : query :=
  QAnd [QRegex FFirst (["^"%char] ++ list_ascii_of_string first_name ++ ["$"%char]);
        QRegex FLast (["^"%char] ++ list_ascii_of_string last_name ++ ["$"%char]);
        QEq FState (upper_s state);
        QEq FChamber (lower_s chamber)].

Definition partial_query (last_name state chamber : string) : query :=
  QAnd [QRegex FLast (["^"%char] ++ list_ascii_of_string last_name);
        QEq FState (upper_s state);
        QEq FChamber (lower_s chamber)].

(** [find_bioguide_by_name_state]; [find_one] is [collection.find_one] of the
    current store, which may raise ([Fails]) on a store error. *)
Definition find_bioguide_by_name_state
    (find_one : query -> outcome (option member)) (c : cache)
    (first_name last_name state chamber : string) : outcome (option string * cache) :=
  let key := cache_key first_name last_name state chamber in
  match c !! key with
  | Some v => Done (Some v, c)
  | None =>
      match find_one (exact_query first_name last_name state chamber) with
      | Done (Some m) => Done (Some (bioguide_id m), <[key := bioguide_id m]> c)
      | Done None =>
          match find_one (partial_query last_name state chamber) with
          | Done (Some m) => Done (Some (bioguide_id m), <[key := bioguide_id m]> c)
          | Done None => Done (None, c) (* logger.warning; return None *)
          | Fails => Done (None, c)     (* except Exception: return None *)
          | Beyond => Beyond
          end
      | Fails => Done (None, c)         (* except Exception: return None *)
      | Beyond => Beyond
      end
  end.

Record xml_member := mkXml {
  x_first : string;
  x_last : string;
  x_state : string;
  x_vote : string;
  x_party : string
}.

Definition match_senate_member (find_one : query -> outcome (option member)) (c : cache)
    (xm : xml_member) : outcome (option string * cache) :=
  find_bioguide_by_name_state find_one c (x_first xm) (x_last xm) (x_state xm) "senate".

End Matcher.

(* ------------------------------------------------------------------ *)
(** ** Senate branch of [sync_votes] *)

Module SenateVotes.
Import Matcher.

Record member_vote := mkMV { bioguideId : string; vote : string; mv_party : string; mv_state : string }.






(** [member_votes[bioguide_id] = vote_position] on a Python dict kept as an
    association list in insertion order. *)
Fixpoint dict_set (k v : string) (d : list (string * string)) : list (string * string) :=
  match d with
  | [] => [(k, v)]
  | (k', v') :: d' => if String.eqb k k' then (k, v) :: d' else (k', v') :: dict_set k v d'
  end.

Definition member_votes_of (ms : list member_vote) : list (string * string) :=
  fold_left (fun d m =>
    if negb (String.eqb (bioguideId m) "") && negb (String.eqb (vote m) "")
    then dict_set (bioguideId m) (vote m) d else d) ms [].




End SenateVotes.

(* ------------------------------------------------------------------ *)
(** ** Python string helpers: [int()], [str.rsplit] *)

Module Py.

(** [(letters, rest)]: the longest prefix whose characters satisfy [p]. *)
Fixpoint span (p : ascii -> bool) (s : list ascii) : list ascii * list ascii :=
  match s with
  | c :: r => if p c then let (a, b) := span p r in (c :: a, b) else ([], s)
  | [] => ([], [])
  end.

Definition digit_value (c : ascii) : Z := Z.of_nat (nat_of_ascii c - 48).

(** The digits of a decimal literal after its first digit: single
    underscores are allowed between digits. *)
Fixpoint dig_run (acc : Z) (s : list ascii) : option Z :=
  match s with
  | [] => Some acc
  | c :: r =>
      if is_digit c then dig_run (acc * 10 + digit_value c) r
      else if ceqb c "_"%char then
        match r with
        | d :: r' => if is_digit d then dig_run (acc * 10 + digit_value d) r' else None
        | [] => None
        end
      else None
  end.

(** [int(s)] on an ASCII string ([None]: [ValueError]): surrounding
    whitespace is stripped, one optional sign, then digits. *)
Definition py_int (s : list ascii) : option Z :=
  let t := Builder.strip s in
  let sb := match t with
            | c :: r => if ceqb c "-"%char then (true, r)
                        else if ceqb c "+"%char then (false, r) else (false, t)
            | [] => (false, t)
            end in
  match snd sb with
  | d :: r =>
      if is_digit d
      then option_map (fun v => if fst sb then (- v)%Z else v) (dig_run (digit_value d) r)
      else None
  | [] => None
  end.

Fixpoint split_at_first (c : ascii) (s : list ascii) : option (list ascii * list ascii) :=
  match s with
  | [] => None
  | d :: r =>
      if ceqb d c then Some ([], r)
      else option_map (fun '(a, b) => (d :: a, b)) (split_at_first c r)
  end.

(** [s.rsplit(c, 1)] when it has two parts; [None] when [c] does not occur. *)
Definition rsplit1 (c : ascii) (s : list ascii) : option (list ascii * list ascii) :=
  option_map (fun '(a, b) => (rev b, rev a)) (split_at_first c (rev s)).

(** Python [str(n)] for an integer [n >= 0]. *)
Fixpoint dec_aux (fuel n : nat) (acc : list ascii) : list ascii :=
  match fuel with
  | 0 => acc
  | S f =>
      let acc' := ascii_of_nat (48 + n mod 10) :: acc in
      if n <? 10 then acc' else dec_aux f (n / 10) acc'
  end.
Definition str_nat (n : nat) : string := string_of_list_ascii (dec_aux (S n) n []).

(** Python [str(z)] (and [f"{z}"]) for an integer [z]. *)
Definition str_int (z : Z) : string :=
  if (z <? 0)%Z then ("-" ++ str_nat (Z.to_nat (- z)))%string else str_nat (Z.to_nat z).

End Py.

(* ------------------------------------------------------------------ *)
(** ** [BillService] ([bills/services.py]) *)

Module Bills.

(** A call that returns a value or raises. *)
Inductive res (A : Type) := Ok (a : A) | Exn.
Arguments Ok {A} a.
Arguments Exn {A}.

(** An entry of the listing returned by [client.search_bills]
    ([bill_item.get("bill", bill_item)]). *)
Record listing_item := mkItem {
  li_type : string;             (* bill.get("type", "") *)
  li_number : option string;    (* bill.get("number") *)
  li_congress : string          (* bill.get("congress"), as rendered *)
}.

Section Service.

(** Upstream payloads and the canonical record, kept abstract. *)
Variables Base Summ Subj Core : Type.

(** The outcome of the part of [transform_bill] that reads the base record
    only: the amendment, number and type checks and the [result] dict. *)
Inductive tresult := TOk (r : Core) | TNone | TRaise.

(** The Congress.gov client. *)
Record client := mkClient {
  search_bills : Z -> Z -> res (list listing_item);      (* congress, limit *)
  get_bill : string -> string -> string -> res Base;
  get_bill_summaries : string -> string -> string -> res Summ;
  get_bill_subjects : string -> string -> string -> res Subj;
  transform_base : Base -> tresult;
  (* the [try] blocks that add subjects and summaries to [result] *)
  with_subjects : Subj -> Core -> Core;
  with_summaries : Summ -> Core -> Core;
  core_bill_id : Core -> string
}.

Variable cl : client.

(** [client.transform_bill(bill_data, summaries_data, subjects_data)]: the
    enrichment blocks run only when their data is present. *)
Definition transform_bill (b : Base) (summ : option Summ) (subj : option Subj) : tresult :=
  match transform_base cl b with
  | TOk r =>
      let r := match subj with Some j => with_subjects cl j r | None => r end in
      let r := match summ with Some s => with_summaries cl s r | None => r end in
      TOk r
  | TNone => TNone
  | TRaise => TRaise
  end.

Record bill_doc := mkDoc {
  bill_id : string;
  updated_at : option Z;        (* seconds *)
  body : Core
}.

Definition to_option {A} (r : res A) : option A :=
  match r with Ok a => Some a | Exn => None end.

(** [fetch_bill_complete]: the three sub-fetches gathered with
    [return_exceptions=True]; [now] is [datetime.utcnow()]. *)
Definition fetch_bill_complete (now : Z) (congress bill_type bill_number : string)
    : option bill_doc :=
  match get_bill cl congress bill_type bill_number with
  | Exn => None
  | Ok bill_data =>
      let summaries_data := to_option (get_bill_summaries cl congress bill_type bill_number) in
      let subjects_data := to_option (get_bill_subjects cl congress bill_type bill_number) in
      match transform_bill bill_data summaries_data subjects_data with
      | TOk r => Some (mkDoc (core_bill_id cl r) (Some now) r)
      | TNone => None
      | TRaise => None            (* except Exception: return None *)
      end
  end.

(** [collection.find_one({"bill_id": bill_id})]. *)
Definition find_by_id (id : string) (docs : list bill_doc) : option bill_doc :=
  find (fun d => String.eqb (bill_id d) id) docs.

Fixpoint replace_first (id : string) (doc : bill_doc) (docs : list bill_doc)
    : option (list bill_doc) :=
  match docs with
  | [] => None
  | d :: ds =>
      if String.eqb (bill_id d) id then Some (doc :: ds)
      else option_map (cons d) (replace_first id doc ds)
  end.

Definition count_id (id : string) (docs : list bill_doc) : nat :=
  length (List.filter (fun d => String.eqb (bill_id d) id) docs).

(** [update_one({"bill_id": id}, {"$set": doc}, upsert=True)] under the
    unique index on [bill_id]: a write that would leave two documents with
    the same [bill_id] raises [DuplicateKeyError]. *)
Definition update_one_upsert (id : string) (doc : bill_doc) (docs : list bill_doc)
    : res (list bill_doc) :=
  let docs' := match replace_first id doc docs with
               | Some ds => ds
               | None => docs ++ [doc]
               end in
  if Nat.leb (count_id (bill_id doc) docs') 1 then Ok docs' else Exn.

Definition fresh (now : Z) (existing : option bill_doc) : bool :=
  match existing with
  | Some d => match updated_at d with Some u => Z.ltb (now - u) 3600 | None => false end
  | None => false
  end.

(** The state the sync touches: the bills collection and, as a trace, the
    ids whose full detail was fetched. *)
Record sync_state := mkSync {
  docs : list bill_doc;
  fetched : list string
}.

(** The [for bill_item in bills_list] loop; [now_at k] is the clock while
    item [k] is processed. [Exn] is an exception leaving the loop. *)
Fixpoint sync_items (now_at : nat -> Z) (k : nat) (items : list listing_item)
    (st : sync_state) (synced_count : nat) : res nat * sync_state :=
  match items with
  | [] => (Ok synced_count, st)
  | it :: rest =>
      let bill_type := lower_s (li_type it) in
      match li_number it with
      | None => sync_items now_at (S k) rest st synced_count
      | Some bill_number =>
          if String.eqb bill_type "" || String.eqb bill_number "" then
            sync_items now_at (S k) rest st synced_count
          else
          let bid := (bill_type ++ bill_number ++ "-" ++ li_congress it)%string in
          if fresh (now_at k) (find_by_id bid (docs st)) then
            sync_items now_at (S k) rest st synced_count
          else
          let st1 := mkSync (docs st) (fetched st ++ [bid]) in
          match fetch_bill_complete (now_at k) (li_congress it) bill_type bill_number with
          | None => sync_items now_at (S k) rest st1 synced_count
          | Some complete_bill =>
              match update_one_upsert bid complete_bill (docs st1) with
              | Exn => (Exn, st1)
              | Ok ds => sync_items now_at (S k) rest (mkSync ds (fetched st1)) (S synced_count)
              end
          end
      end
  end.

(** The process-wide state: [_synced_congresses], the collection, and the
    number of calls of [sync_recent_bills] made so far. *)
Record world := mkWorld {
  synced : list Z;
  store : sync_state;
  sync_calls : nat
}.

Definition sync_recent_bills (now_at : nat -> Z) (congress limit : Z) (w : world) : Z * world :=
  let w := mkWorld (synced w) (store w) (S (sync_calls w)) in
  if existsb (Z.eqb congress) (synced w) then (0%Z, w) else
  match search_bills cl congress limit with
  | Exn => (0%Z, w)
  | Ok bills_list =>
      match sync_items now_at 0 bills_list (store w) 0 with
      | (Ok n, st) => (Z.of_nat n, mkWorld (synced w ++ [congress]) st (sync_calls w))
      | (Exn, st) => (0%Z, mkWorld (synced w) st (sync_calls w))
      end
  end.

(** [BillService.search_bills] up to the counts; [count_documents] is the
    count of the (fixed) Mongo query over the collection. *)
Definition search_bills_counts (count_documents : list bill_doc -> Z)
    (now_at : nat -> Z) (congress : option Z) (page_size : Z) (w : world)
    : Z * Z * world :=
  let total := count_documents (docs (store w)) in
  let total_pages := Z.max 1 ((total + page_size - 1) / page_size) in
  let target := match congress with Some c => if Z.eqb c 0 then 119%Z else c | None => 119%Z end in
  if Z.ltb total page_size && negb (existsb (Z.eqb target) (synced w)) then
    let w' := snd (sync_recent_bills now_at target 50 w) in
    let total := count_documents (docs (store w')) in
    (total, Z.max 1 ((total + page_size - 1) / page_size), w')
  else (total, total_pages, w).

End Service.

Arguments TOk {Core} r.
Arguments TNone {Core}.
Arguments TRaise {Core}.
Arguments mkClient {Base Summ Subj Core}.
Arguments search_bills {Base Summ Subj Core}.
Arguments get_bill {Base Summ Subj Core}.
Arguments get_bill_summaries {Base Summ Subj Core}.
Arguments get_bill_subjects {Base Summ Subj Core}.
Arguments transform_base {Base Summ Subj Core}.
Arguments with_subjects {Base Summ Subj Core}.
Arguments with_summaries {Base Summ Subj Core}.
Arguments core_bill_id {Base Summ Subj Core}.
Arguments transform_bill {Base Summ Subj Core}.
Arguments mkDoc {Core}.
Arguments bill_id {Core}.
Arguments updated_at {Core}.
Arguments body {Core}.
Arguments fetch_bill_complete {Base Summ Subj Core}.
Arguments find_by_id {Core}.
Arguments replace_first {Core}.
Arguments count_id {Core}.
Arguments update_one_upsert {Core}.
Arguments fresh {Core}.
Arguments mkSync {Core}.
Arguments docs {Core}.
Arguments fetched {Core}.
Arguments sync_items {Base Summ Subj Core}.
Arguments mkWorld {Core}.
Arguments synced {Core}.
Arguments store {Core}.
Arguments sync_calls {Core}.
Arguments sync_recent_bills {Base Summ Subj Core}.
Arguments search_bills_counts {Base Summ Subj Core}.

End Bills.

(* ------------------------------------------------------------------ *)
(** ** Bill ids: [BillService.get_bill_actions] ([bills/services.py]) *)

Module BillIds.
Import Py.

Definition is_lower (c : ascii) : bool :=
  let n := nat_of_ascii c in (97 <=? n) && (n <=? 122).

(** The [try] block of [get_bill] and [get_bill_actions] that parses
    [bill_id] into [(congress, bill_type, bill_number)]:
    [rsplit("-", 1)], [int(parts[1])], then
    [re.match(r"([a-z]+)(\d+)", type_and_number)] on ASCII text, where the
    greedy groups are the longest run of lower-case letters and the longest
    run of digits after it. [None] is each [return] of the error path. *)
Definition parse_bill_id (bill_id : string) : option (Z * string * Z) :=
  match rsplit1 "-"%char (list_ascii_of_string bill_id) with
  | None => None                                  (* len(parts) != 2 *)
  | Some (type_and_number, c) =>
      match py_int c with
      | None => None                              (* ValueError *)
      | Some congress =>
          let (letters, rest) := span is_lower type_and_number in
          let (digits, _) := span is_digit rest in
          match letters, digits with
          | _ :: _, _ :: _ =>
              option_map (fun n => (congress, string_of_list_ascii letters, n))
                         (py_int digits)
          | _, _ => None                          (* no match *)
          end
      end
  end.

(** A call that returns a value or raises an exception with a message. *)
Inductive ares (A : Type) := AOk (a : A) | ARaise (msg : string).
Arguments AOk {A} a.
Arguments ARaise {A} msg.

(** An item of [data["actions"]]: [None] is a missing key. *)
Record action_item := mkActionItem {
  actionDate : option string;
  text : option string;
  type : option string;
  actionCode : option string
}.

Record action := mkAction {
  date : option string;
  a_text : string;
  action_type : option string;
  action_code : option string
}.

(** The returned dict: [{"results": ...}] or with an ["error"] key. *)
Record response := mkResponse { results : list action; error : option string }.

Definition invalid_format : response :=
  mkResponse [] (Some "Invalid bill ID format").

(** [client.get_bill_actions(congress, bill_type, bill_number, limit)];
    the payload's ["actions"] key, [None] when it is missing. *)
Definition actions_client := Z -> string -> Z -> Z -> ares (option (list action_item)).

Definition get_bill_actions (api : actions_client) (bill_id : string) (limit : Z) : response :=
  match parse_bill_id bill_id with
  | None => invalid_format
  | Some (congress, bill_type, bill_number) =>
      match api congress bill_type bill_number limit with
      | ARaise e => mkResponse [] (Some e)
      | AOk data =>
          let items := match data with Some l => l | None => [] end in
          mkResponse
            (map (fun item => mkAction (actionDate item)
                                       (match text item with Some t => t | None => "" end)
                                       (type item) (actionCode item)) items)
            None
      end
  end.

End BillIds.

(* ------------------------------------------------------------------ *)
(** ** Vote sync loop and vote records ([sync_votes.py]) *)

Module VoteSync.
Import Py.

(** An entry of [data["houseRollCallVotes"]] / [data["senateRollCallVotes"]]. *)
Record vote_item := mkVoteItem {
  rollCallNumber : option Z;        (* vote_data.get("rollCallNumber") *)
  sourceDataURL : option string
}.

Section Chamber.

(** [client.get_house_votes] or [client.get_senate_votes] (by chamber)
    with [limit] and [offset], projected on the votes key; [None] when the
    call raises. *)
Variable fetch : Z -> Z -> option (list vote_item).
(** [_fetch_detailed_vote] followed by [_store_vote] for one vote: [true]
    when a detailed vote came back and was stored, [false] when it came
    back empty or either step raised. *)
Variable process : vote_item -> bool.
Variable limit : Z.

Definition page_size : Z := 100.

(** The [for vote_data in votes] loop: [(synced, errors)] after a batch. *)
Fixpoint process_batch (votes : list vote_item) (synced errors : Z) : Z * Z :=
  match votes with
  | [] => (synced, errors)
  | v :: rest =>
      match rollCallNumber v with
      | None => process_batch rest synced errors            (* not roll_number *)
      | Some r =>
          if (r =? 0)%Z then process_batch rest synced errors
          else if process v then process_batch rest (synced + 1) errors
          else process_batch rest synced (errors + 1)
      end
  end.

(** The [while synced < limit] loop of [_sync_chamber_votes] with
    [(synced, errors)] when it ends; [fuel] bounds the number of batches
    ([None] when it runs out). *)
Fixpoint chamber_loop (fuel : nat) (synced errors offset : Z) : option (Z * Z) :=
  match fuel with
  | O => None
  | S f =>
      if (synced <? limit)%Z then
        match fetch (Z.min page_size (limit - synced)) offset with
        | None => Some (synced, errors + 1)%Z        (* batch raised *)
        | Some [] => Some (synced, errors)            (* if not votes: break *)
        | Some votes =>
            let (s', e') := process_batch votes synced errors in
            let offset' := (offset + Z.of_nat (length votes))%Z in
            if (limit <=? s')%Z then Some (s', e') else chamber_loop f s' e' offset'
        end
      else Some (synced, errors)
  end.

Definition _sync_chamber_votes (fuel : nat) : option (Z * Z) := chamber_loop fuel 0 0 0.

End Chamber.

(** The [vote_id] of [_store_vote] and [_transform_vote]. *)
Definition vote_id_of (chamber : string) (congress session roll_number : Z) : string :=
  ((if String.eqb chamber "house" then "h" else "s") ++ str_int congress ++ "-" ++
   str_int session ++ "-" ++ str_int roll_number)%string.

(** [vote_data.get("bill")], its values as rendered by the f-string. *)
Record bill_ref := mkBillRef {
  br_type : option string;
  br_number : option string;
  br_congress : option string
}.

Definition truthy_s (o : option string) : bool :=
  match o with Some v => negb (String.eqb v "") | None => false end.

(** The [bill_id] computed by [_transform_vote] from [legislationNumber],
    [legislationType] and, failing those, the [bill] object. *)
Definition vote_bill_id (legislationNumber legislationType : option string)
    (bill : option bill_ref) (congress : Z) : option string :=
  let fallback :=
    match bill with
    | Some b =>
        let bill_type := lower_s (match br_type b with Some t => t | None => "" end) in
        match br_number b, br_congress b with
        | Some bill_number, Some bill_congress =>
            if negb (String.eqb bill_type "") && negb (String.eqb bill_number "")
               && negb (String.eqb bill_congress "")
            then Some (bill_type ++ bill_number ++ "-" ++ bill_congress)%string
            else None
        | _, _ => None
        end
    | None => None
    end in
  match legislationNumber, legislationType with
  | Some leg_number, Some leg_type =>
      if negb (String.eqb leg_number "") && negb (String.eqb leg_type "")
      then Some (lower_s leg_type ++ leg_number ++ "-" ++ str_int congress)%string
      else fallback
  | _, _ => fallback
  end.

End VoteSync.

(* ------------------------------------------------------------------ *)
(** ** [SenateVoteXMLParser._parse_totals_from_result] ([xml_parser.py]) *)

Module XmlTotals.
Import Py.

(** [re.search(r"\((\d+)-(\d+)\)", text)] tried at one position just
    after a ["("]: the greedy digit runs cannot give back a digit, so the
    match exists iff the longest digit runs are followed by ["-"] and
    [")"]. The groups go through [int()]. *)
Definition totals_at (r : list ascii) : option (Z * Z) :=
  let (d1, r1) := span is_digit r in
  match d1, r1 with
  | _ :: _, c :: r2 =>
      if ceqb c "-"%char then
        let (d2, r3) := span is_digit r2 in
        match d2, r3 with
        | _ :: _, c' :: _ =>
            if ceqb c' ")"%char then
              match py_int d1, py_int d2 with
              | Some y, Some n => Some (y, n)
              | _, _ => None
              end
            else None
        | _, _ => None
        end
      else None
  | _, _ => None
  end.

(** The leftmost match. *)
Fixpoint search_totals (s : list ascii) : option (Z * Z) :=
  match s with
  | [] => None
  | c :: r =>
      if ceqb c "("%char then
        match totals_at r with Some p => Some p | None => search_totals r end
      else search_totals r
  end.

(** [(yea, nay, present, absent)]. *)
Definition _parse_totals_from_result (result_text : string) : Z * Z * Z * Z :=
  match search_totals (list_ascii_of_string result_text) with
  | Some (y, n) => (y, n, 0, 0)%Z
  | None => (0, 0, 0, 0)%Z
  end.

End XmlTotals.

(* ------------------------------------------------------------------ *)
(** ** Bill views ([bills/views.py]) *)

Module BillViews.
Import Py BillIds.

(** A JSON body: a service result, or [{"error": ...}]; [IntError v] is
    the body [{"error": str(e)}] of the [ValueError] raised by [int(v)]. *)
Inductive body (R : Type) := Result (r : R) | Error (msg : string) | IntError (literal : string).
Arguments Result {R} r.
Arguments Error {R} msg.
Arguments IntError {R} literal.

(** [int(request.GET.get(name, default))]: the default is an [int]. *)
Definition int_param (v : option string) (default : Z) : option Z :=
  match v with
  | None => Some default
  | Some s => py_int (list_ascii_of_string s)
  end.

Definition literal (v : option string) : string := match v with Some s => s | None => "" end.

(** [BillActionsView.get]: [(status, body)]. *)
Definition BillActionsView_get (api : actions_client) (bill_id : string)
    (limit_param : option string) : Z * body response :=
  match int_param limit_param 20 with
  | None => (400%Z, IntError (literal limit_param))
  | Some limit =>
      let result := get_bill_actions api bill_id limit in
      if match error result with Some _ => true | None => false end &&
         match results result with [] => true | _ => false end
      then (500%Z, Result result)
      else (200%Z, Result result)
  end.

(** The outcome of [BillService.search_bills]: a dict, a [ValueError]
    with its message, or any other exception. *)
Inductive sres (R : Type) := SOk (r : R) | SValueError (msg : string) | SRaise.
Arguments SOk {R} r.
Arguments SValueError {R} msg.
Arguments SRaise {R}.

(** [BillSearchView.get] with the query parameters [q], [party],
    [subject], [congress], [page], [page_size]; [search] is
    [BillService.search_bills(query, party, subject, congress, page, page_size)]. *)
Definition BillSearchView_get {R : Type}
    (search : option string -> option string -> option string -> option Z -> Z -> Z -> sres R)
    (q party subject congress page page_size : option string) : Z * body R :=
  match int_param page 1 with
  | None => (400%Z, IntError (literal page))
  | Some pg =>
  match int_param page_size 20 with
  | None => (400%Z, IntError (literal page_size))
  | Some ps =>
      if (pg <? 1)%Z then (400%Z, Error "Page must be >= 1")
      else if (ps <? 1)%Z || (100 <? ps)%Z then (400%Z, Error "Page size must be between 1 and 100")
      else
        let congress_arg :=
          match congress with
          | Some c => if String.eqb c "" then Some None
                      else option_map Some (py_int (list_ascii_of_string c))
          | None => Some None
          end in
        match congress_arg with
        | None => (400%Z, IntError (literal congress))
        | Some cg =>
            match search q party subject cg pg ps with
            | SOk r => (200%Z, Result r)
            | SValueError m => (400%Z, Error m)
            | SRaise => (500%Z, Error "Internal server error")
            end
        end
  end
  end.

End BillViews.

(* ------------------------------------------------------------------ *)
(** ** Auxiliary notions used in the statements and proofs below *)

Module Aux.
Import Rx.

(** The regex a frame denotes, from its list of alternatives. *)
Definition frame_alts (l : list (list item)) : regex :=
  alt_list (seq_re (hd [] l)) (map seq_re (tl l)).

Definition alts_of (f : frame) : list (list item) := fst f ++ [snd f].

(** Parsing a token list that starts with an atom, from a frame that
    already holds [alts0] and [cur0] instead of from [init]: the bottom frame
    is shifted, the frames above it are unchanged. *)
Definition shift (alts0 : list (list item)) (cur0 : list item) (f : frame) : frame :=
  match f with
  | ([], cur) => (alts0, cur ++ cur0)
  | (a1 :: rest, cur) => (alts0 ++ (a1 ++ cur0) :: rest, cur)
  end.

Definition shifted (alts0 : list (list item)) (cur0 : list item) (std ctx : list frame) : Prop :=
  exists up bot, std = up ++ [bot] /\ bot <> ([], []) /\ ctx = up ++ [shift alts0 cur0 bot].

Definition orel {A B} (R : A -> B -> Prop) (o1 : outcome A) (o2 : outcome B) : Prop :=
  match o1, o2 with
  | Done a, Done b => R a b
  | Fails, Fails => True
  | Beyond, Beyond => True
  | _, _ => False
  end.

Definition nonempty {A} (l : list A) : bool := match l with [] => false | _ => true end.

(** Caseless literal prefix. *)
Fixpoint ci_prefix (w s : list ascii) : bool :=
  match w, s with
  | [], _ => true
  | c :: w', d :: s' => ci c d && ci_prefix w' s'
  | _ :: _, [] => false
  end.

(** Caseless full-string equality. *)
Definition ci_equal (w s : list ascii) : bool :=
  ci_prefix w s && Nat.eqb (length w) (length s).

(** The regex of a literal followed by [r]. *)
Fixpoint lits (w : list ascii) (r : regex) : regex :=
  match w with
  | [] => r
  | c :: w' => RCat (RChr c) (lits w' r)
  end.

(** One of the characters [_escape_regex_special_chars] rewrites. *)
Definition special (c : ascii) : bool := existsb (ceqb c) Builder.special_chars.

Definition plain (w : list ascii) : bool := forallb (fun c => negb (special c)) w.

(** Tokens of the two-word name pattern. *)
Definition dsT : list tok := [TAtom RAny true; TQuant "*"%char].

Definition two_pat (x y : list ascii) : list ascii :=
  Builder.wb x ++ Builder.dotstar ++ Builder.wb y ++ ["|"%char] ++
  Builder.wb y ++ Builder.dotstar ++ Builder.wb x.

Definition is_fails {A} (o : outcome A) : bool := match o with Fails => true | _ => false end.
Definition is_beyond {A} (o : outcome A) : bool := match o with Beyond => true | _ => false end.

(** A run of atom tokens. *)
Definition atom_toks (ps : list (regex * bool)) : list tok :=
  map (fun p => TAtom (fst p) (snd p)) ps.

Definition chr_atoms (w : list ascii) : list (regex * bool) :=
  map (fun c => (RChr c, true)) w.

(** [w] occurs caselessly at position [i] of [f], and position [i] is a
    word boundary for it: the preceding character (if any) is a word
    character exactly when the first character of [w] is not. *)
Definition word_prefix_at (w f : list ascii) (i : nat) : bool :=
  match w with
  | [] => false
  | c :: _ => ci_prefix w (skipn i f) && negb (Bool.eqb (word_opt (prev f i)) (is_word c))
  end.

Definition matches_word_start (w f : list ascii) : bool :=
  existsb (word_prefix_at w f) (seq 0 (S (length f))).

(** Modelled from the spec: [w] is a caseless prefix of some
    whitespace-delimited word of [f]. *)
Definition spec_word_prefix (w f : list ascii) : bool :=
  existsb (ci_prefix w) (Builder.split f).

(** Caseless equality of [w] with [s], where [s] may carry one extra
    trailing newline (what [^w$] accepts). *)
Definition ci_equal_nl (w s : list ascii) : bool :=
  ci_prefix w s &&
  ((length w =? length s) ||
   ((S (length w) =? length s) &&
    match nth_error s (length w) with Some d => ceqb d nl | None => false end)).

(** The member the exact lookup of [MemberMatcher] asks for. *)
Definition exact_match (first last st ch : string) (m : member) : bool :=
  ci_equal_nl (list_ascii_of_string first) (list_ascii_of_string (first_name m)) &&
  ci_equal_nl (list_ascii_of_string last) (list_ascii_of_string (last_name m)) &&
  String.eqb (state m) (upper_s st) && String.eqb (chamber m) (lower_s ch).

(** [s] does not end in a newline. *)
Definition no_trailing_nl (s : list ascii) : bool :=
  match rev s with d :: _ => negb (ceqb d nl) | [] => true end.

(** Neither stored name of [m] ends in a newline. *)
Definition names_without_trailing_nl (m : member) : bool :=
  no_trailing_nl (list_ascii_of_string (first_name m)) &&
  no_trailing_nl (list_ascii_of_string (last_name m)).

(** The exact match the specification describes: caseless full-string
    equality of both names, the state and chamber as [exact_match] has them. *)
Definition spec_exact_match (first last st ch : string) (m : member) : bool :=
  ci_equal (list_ascii_of_string first) (list_ascii_of_string (first_name m)) &&
  ci_equal (list_ascii_of_string last) (list_ascii_of_string (last_name m)) &&
  String.eqb (state m) (upper_s st) && String.eqb (chamber m) (lower_s ch).

(** The member the fallback lookup asks for. *)
Definition prefix_match (last st ch : string) (m : member) : bool :=
  ci_prefix (list_ascii_of_string last) (list_ascii_of_string (last_name m)) &&
  String.eqb (state m) (upper_s st) && String.eqb (chamber m) (lower_s ch).


(** A client for concrete runs: one listing of two House bills, every
    sub-fetch answering, the canonical record [0] with id [hr2-119]. *)
Definition demo_client : Bills.client unit unit unit nat :=
  Bills.mkClient
    (fun _ _ => Bills.Ok [Bills.mkItem "HR" (Some "1") "119"; Bills.mkItem "HR" (Some "2") "119"])
    (fun _ _ _ => Bills.Ok tt) (fun _ _ _ => Bills.Ok tt) (fun _ _ _ => Bills.Ok tt)
    (fun _ => Bills.TOk 0) (fun _ r => r) (fun _ r => r) (fun _ => "hr2-119"%string).

(** A client whose primary fetch of bill [1] raises and whose summaries and
    subjects endpoints always raise. *)
Definition flaky_client : Bills.client unit unit unit nat :=
  Bills.mkClient
    (fun _ _ => Bills.Ok [Bills.mkItem "HR" (Some "1") "119"; Bills.mkItem "HR" (Some "2") "119"])
    (fun _ _ n => if String.eqb n "1" then Bills.Exn else Bills.Ok tt)
    (fun _ _ _ => Bills.Exn) (fun _ _ _ => Bills.Exn)
    (fun _ => Bills.TOk 0) (fun _ r => S r) (fun _ r => S r) (fun _ => "hr2-119"%string).

(** A client whose listing call raises. *)
Definition down_client : Bills.client unit unit unit nat :=
  Bills.mkClient (fun _ _ => Bills.Exn)
    (fun _ _ _ => Bills.Exn) (fun _ _ _ => Bills.Exn) (fun _ _ _ => Bills.Exn)
    (fun _ => Bills.TNone) (fun _ r => r) (fun _ r => r) (fun _ => ""%string).

(** [d[k]] on a dict kept as an association list ([None]: no such key). *)
Definition dict_get (k : string) (d : list (string * string)) : option string :=
  option_map snd (find (fun kv => String.eqb (fst kv) k) d).

(** The last element of a list. *)
Fixpoint last_opt {A} (l : list A) : option A :=
  match l with
  | [] => None
  | [x] => Some x
  | _ :: l' => last_opt l'
  end.

(** [if params.x: query[...] = f(params.x)] as a test on one document:
    no constraint when the filter is missing or empty. *)
Definition filter_ok (o : option string) (f : string -> string) (v : string) : bool :=
  match o with
  | Some x => if String.eqb x "" then true else String.eqb v (f x)
  | None => true
  end.

End Aux.

(* ------------------------------------------------------------------ *)
(** * Properties *)

(** ** The PCRE fragment *)

Module RxFacts.
Import Rx Aux.

Lemma lex_run_app st x y :
  lex_run st (x ++ y) =
  obind (lex_run st x) (fun '(st1, t1) =>
    obind (lex_run st1 y) (fun '(st2, t2) => Done (st2, t1 ++ t2))).
Proof.
  revert st; induction x as [|c x IH]; intros st; simpl.
  - destruct (lex_run st y) as [[st2 t2]| |]; reflexivity.
  - destruct (lex_step st c) as [[st1 t1]| |]; simpl; try reflexivity.
    rewrite IH. destruct (lex_run st1 x) as [[st2 t2]| |]; simpl; try reflexivity.
    destruct (lex_run st2 y) as [[st3 t3]| |]; simpl; try reflexivity.
    rewrite app_assoc; reflexivity.
Qed.

Lemma lex_step_not_fails st c : lex_step st c <> Fails.
Proof.
  destruct st; simpl; unfold normal_char, class_char;
    repeat match goal with |- context [if ?b then _ else _] => destruct b end;
    discriminate.
Qed.

Lemma lex_run_not_fails st s : lex_run st s <> Fails.
Proof.
  revert st; induction s as [|c s IH]; intros st; simpl; [discriminate|].
  pose proof (lex_step_not_fails st c) as H.
  destruct (lex_step st c) as [[st1 t1]| |]; simpl; [|congruence|discriminate].
  specialize (IH st1). destruct (lex_run st1 s) as [[st2 t2]| |]; simpl; congruence.
Qed.

Lemma process_app ts1 ts2 st :
  process (ts1 ++ ts2) st = obind (process ts1 st) (process ts2).
Proof.
  revert st; induction ts1 as [|t ts1 IH]; intros st; simpl; [reflexivity|].
  destruct (step t st); simpl; auto.
Qed.

Lemma parse_cases x :
  parse x = Fails \/
  (exists ts f, lex_run LN x = Done (LN, ts) /\ process ts init = Done [f] /\
                parse x = Done (frame_re f)) \/
  (parse x = Beyond /\
   (lex_run LN x = Beyond \/
    exists ts, lex_run LN x = Done (LN, ts) /\ process ts init = Beyond)).
Proof.
  unfold parse, lex.
  pose proof (lex_run_not_fails LN x) as Hnf.
  destruct (lex_run LN x) as [[st ts]| |] eqn:E; simpl; [|congruence|auto].
  destruct st; simpl; auto.
  destruct (process ts init) as [[|f [|g r]]| |] eqn:P; simpl; auto.
  - right; left; eauto.
  - right; right; eauto.
Qed.

Lemma shifted_single a0 c0 bot y :
  bot <> ([], []) -> y = shift a0 c0 bot -> shifted a0 c0 [bot] [y].
Proof. intros H ->. exists [], bot. auto. Qed.

Lemma step_shifted a0 c0 t std ctx :
  shifted a0 c0 std ctx -> orel (shifted a0 c0) (step t std) (step t ctx).
Proof.
  intros (up & bot & -> & Hb & ->).
  destruct up as [|[fa fc] up].
  - destruct bot as [[|a1 rest] cur]; simpl;
      destruct t as [a rep| | | |q]; simpl.
    + apply shifted_single; [discriminate|reflexivity].
    + apply shifted_single; [discriminate|reflexivity].
    + exists [([], [])], ([], cur). auto.
    + exact I.
    + destruct cur as [|[[a rep] qd] cur']; [congruence|].
      simpl. destruct (rep && negb qd); simpl; [|exact I].
      apply shifted_single; [discriminate|reflexivity].
    + apply shifted_single; [discriminate|reflexivity].
    + apply shifted_single; [discriminate|simpl; rewrite <- app_assoc; reflexivity].
    + exists [([], [])], (a1 :: rest, cur). auto.
    + exact I.
    + destruct cur as [|[[a rep] qd] cur']; simpl; [exact I|].
      destruct (rep && negb qd); simpl; [|exact I].
      apply shifted_single; [discriminate|reflexivity].
  - simpl. destruct t as [a rep| | | |q].
    + exists ((fa, (a, rep, false) :: fc) :: up), bot; auto.
    + exists ((fa ++ [fc], []) :: up), bot; auto.
    + exists (([], []) :: (fa, fc) :: up), bot; auto.
    + destruct up as [|[pa pc] up]; simpl.
      * destruct bot as [[|a1 rest] pcur]; simpl;
          (apply shifted_single; [discriminate|reflexivity]).
      * exists ((pa, (frame_re (fa, fc), true, false) :: pc) :: up), bot; auto.
    + destruct fc as [|[[a rep] qd] fc'].
      * destruct up; destruct fa; simpl; exact I.
      * destruct (rep && negb qd); simpl; [|exact I].
        exists ((fa, (quant q a, true, true) :: fc') :: up), bot; auto.
Qed.

Lemma process_shifted a0 c0 ts std ctx :
  shifted a0 c0 std ctx -> orel (shifted a0 c0) (process ts std) (process ts ctx).
Proof.
  revert std ctx; induction ts as [|t ts IH]; intros std ctx H; simpl; [exact H|].
  pose proof (step_shifted a0 c0 t std ctx H) as Hs.
  destruct (step t std), (step t ctx); simpl in *; try contradiction; auto.
Qed.

Lemma process_from a r ts a0 c0 :
  orel (shifted a0 c0) (process (TAtom a r :: ts) init) (process (TAtom a r :: ts) [(a0, c0)]).
Proof.
  simpl. apply process_shifted.
  exists [], ([], [(a, r, false)]). split; [reflexivity|split; [discriminate|reflexivity]].
Qed.

Lemma process_from_done a r ts a0 c0 f :
  process (TAtom a r :: ts) init = Done [f] ->
  process (TAtom a r :: ts) [(a0, c0)] = Done [shift a0 c0 f].
Proof.
  intros H. pose proof (process_from a r ts a0 c0) as Hr. rewrite H in Hr.
  destruct (process (TAtom a r :: ts) [(a0, c0)]); simpl in Hr; try contradiction.
  destruct Hr as (up & bot & E & _ & ->).
  destruct up as [|x [|y up]]; simpl in E; inversion E; subst; reflexivity.
Qed.

Lemma process_from_beyond a r ts a0 c0 :
  process (TAtom a r :: ts) init = Beyond ->
  process (TAtom a r :: ts) [(a0, c0)] = Beyond.
Proof.
  intros H. pose proof (process_from a r ts a0 c0) as Hr. rewrite H in Hr.
  destruct (process (TAtom a r :: ts) [(a0, c0)]); simpl in Hr; tauto.
Qed.

Lemma alts_of_shift l f : alts_of (shift l [] f) = l ++ alts_of f.
Proof.
  destruct f as [[|a1 rest] cur]; unfold alts_of; simpl; rewrite !app_nil_r;
    [reflexivity|rewrite <- app_assoc; reflexivity].
Qed.

(** Semantics of alternatives. *)

Lemma ends_alt_list s x xs i :
  ends s (alt_list x xs) i = ends s x i ++ flat_map (fun r => ends s r i) xs.
Proof.
  revert x; induction xs as [|y ys IH]; intros x; simpl.
  - rewrite app_nil_r; reflexivity.
  - rewrite IH; reflexivity.
Qed.

Lemma ends_frame_alts s c l i :
  ends s (frame_alts (c :: l)) i = flat_map (fun a => ends s (seq_re a) i) (c :: l).
Proof.
  unfold frame_alts; simpl. rewrite ends_alt_list. f_equal.
  induction l as [|a l IH]; simpl; [reflexivity|rewrite IH; reflexivity].
Qed.

Lemma nonempty_app {A} (x y : list A) : nonempty (x ++ y) = nonempty x || nonempty y.
Proof. destruct x; reflexivity. Qed.

Lemma existsb_ext' {A} (f g : A -> bool) l :
  (forall a, f a = g a) -> existsb f l = existsb g l.
Proof. intros H; induction l; simpl; [reflexivity|rewrite H, IHl; reflexivity]. Qed.

Lemma search_frame_alts_comm s l1 l2 :
  l1 <> [] -> l2 <> [] ->
  search s (frame_alts (l1 ++ l2)) = search s (frame_alts (l2 ++ l1)).
Proof.
  intros H1 H2. unfold search. apply existsb_ext'. intros i.
  destruct l1 as [|c1 l1]; [congruence|]. destruct l2 as [|c2 l2]; [congruence|].
  rewrite <- !app_comm_cons, !ends_frame_alts, !app_comm_cons, !flat_map_app.
  change (nonempty (flat_map (fun a => ends s (seq_re a) i) (c1 :: l1) ++
                    flat_map (fun a => ends s (seq_re a) i) (c2 :: l2)) =
          nonempty (flat_map (fun a => ends s (seq_re a) i) (c2 :: l2) ++
                    flat_map (fun a => ends s (seq_re a) i) (c1 :: l1))).
  rewrite !nonempty_app, orb_comm; reflexivity.
Qed.

Lemma frame_re_alts f : frame_re f = frame_alts (alts_of f).
Proof. reflexivity. Qed.

Lemma alts_of_nonempty f : alts_of f <> [].
Proof. unfold alts_of; destruct (fst f); discriminate. Qed.

(** Lexing the pieces of the two-word pattern. *)

Lemma lex_wb z :
  lex_run LN (Builder.wb z) =
  obind (lex_run LN z) (fun '(st, t) => Done (st, TAtom RWordB false :: t)).
Proof. unfold Builder.wb; simpl. destruct (lex_run LN z) as [[]| |]; reflexivity. Qed.

Lemma lex_wb_head z st t :
  lex_run LN (Builder.wb z) = Done (st, t) -> exists t', t = TAtom RWordB false :: t'.
Proof.
  rewrite lex_wb. destruct (lex_run LN z) as [[st' t']| |]; simpl; intros H;
    inversion H; eauto.
Qed.

Lemma lex_app_done st x y sx tx :
  lex_run st x = Done (sx, tx) ->
  lex_run st (x ++ y) = obind (lex_run sx y) (fun '(s2, t2) => Done (s2, tx ++ t2)).
Proof. intros H. rewrite lex_run_app, H. reflexivity. Qed.

Lemma lex_app_beyond st x y : lex_run st x = Beyond -> lex_run st (x ++ y) = Beyond.
Proof. intros H. rewrite lex_run_app, H. reflexivity. Qed.

Lemma lex_two_done x y tx ty :
  lex_run LN (Builder.wb x) = Done (LN, tx) -> lex_run LN (Builder.wb y) = Done (LN, ty) ->
  lex_run LN (two_pat x y) = Done (LN, tx ++ dsT ++ ty ++ [TBar] ++ ty ++ dsT ++ tx).
Proof.
  intros Hx Hy. unfold two_pat.
  rewrite (lex_app_done _ _ _ _ _ Hx); cbn [obind].
  rewrite (lex_app_done LN Builder.dotstar _ LN dsT eq_refl); cbn [obind].
  rewrite (lex_app_done _ _ _ _ _ Hy); cbn [obind].
  rewrite (lex_app_done LN ["|"%char] _ LN [TBar] eq_refl); cbn [obind].
  rewrite (lex_app_done _ _ _ _ _ Hy); cbn [obind].
  rewrite (lex_app_done LN Builder.dotstar _ LN dsT eq_refl); cbn [obind].
  rewrite Hx; reflexivity.
Qed.

Lemma lex_two_beyond_y x y tx :
  lex_run LN (Builder.wb x) = Done (LN, tx) -> lex_run LN (Builder.wb y) = Beyond ->
  lex_run LN (two_pat x y) = Beyond.
Proof.
  intros Hx Hy. unfold two_pat.
  rewrite (lex_app_done _ _ _ _ _ Hx); cbn [obind].
  rewrite (lex_app_done LN Builder.dotstar _ LN dsT eq_refl); cbn [obind].
  rewrite (lex_app_beyond _ _ _ Hy); reflexivity.
Qed.

(** Processing the pieces. *)

Lemma proc_seq_done tx ty a r ty' fx fy :
  ty = TAtom a r :: ty' -> process tx init = Done [fx] -> process ty init = Done [fy] ->
  process (tx ++ dsT ++ ty) init = Done [shift (fst fx) ((RStar RAny, true, true) :: snd fx) fy].
Proof.
  intros -> Hx Hy. rewrite process_app, Hx. destruct fx as [a0 c0]; simpl.
  apply process_from_done; exact Hy.
Qed.

Lemma proc_seq_beyond tx ty a r ty' fx :
  ty = TAtom a r :: ty' -> process tx init = Done [fx] -> process ty init = Beyond ->
  process (tx ++ dsT ++ ty) init = Beyond.
Proof.
  intros -> Hx Hy. rewrite process_app, Hx. destruct fx as [a0 c0]; simpl.
  apply process_from_beyond; exact Hy.
Qed.

Lemma proc_bar_done tp tq a r tq' fp fq :
  tq = TAtom a r :: tq' -> process tp init = Done [fp] -> process tq init = Done [fq] ->
  process (tp ++ [TBar] ++ tq) init = Done [shift (alts_of fp) [] fq].
Proof.
  intros -> Hp Hq. rewrite process_app, Hp. destruct fp as [a0 c0]; simpl.
  apply process_from_done; exact Hq.
Qed.

Lemma process_beyond_app ts1 ts2 st :
  process ts1 st = Beyond -> process (ts1 ++ ts2) st = Beyond.
Proof. intros H. rewrite process_app, H. reflexivity. Qed.

Lemma parse_two_good x y tx ty fx fy :
  lex_run LN (Builder.wb x) = Done (LN, tx) -> process tx init = Done [fx] ->
  lex_run LN (Builder.wb y) = Done (LN, ty) -> process ty init = Done [fy] ->
  parse (two_pat x y) =
  Done (frame_alts (alts_of (shift (fst fx) ((RStar RAny, true, true) :: snd fx) fy) ++
                    alts_of (shift (fst fy) ((RStar RAny, true, true) :: snd fy) fx))).
Proof.
  intros Lx Px Ly Py.
  destruct (lex_wb_head _ _ _ Lx) as [tx' Ex].
  destruct (lex_wb_head _ _ _ Ly) as [ty' Ey].
  unfold parse, lex. rewrite (lex_two_done _ _ _ _ Lx Ly). cbn [obind].
  replace (tx ++ dsT ++ ty ++ [TBar] ++ ty ++ dsT ++ tx)
    with ((tx ++ dsT ++ ty) ++ [TBar] ++ (ty ++ dsT ++ tx))
    by (rewrite <- !app_assoc; reflexivity).
  assert (Hq : ty ++ dsT ++ tx = TAtom RWordB false :: (ty' ++ dsT ++ tx))
    by (rewrite Ey; reflexivity).
  rewrite (proc_bar_done _ _ _ _ _ _ _ Hq
             (proc_seq_done _ _ _ _ _ _ _ Ey Px Py)
             (proc_seq_done _ _ _ _ _ _ _ Ex Py Px)).
  cbn [obind]. rewrite frame_re_alts, alts_of_shift. reflexivity.
Qed.

Lemma parse_two_beyond x y :
  parse (Builder.wb x) <> Fails -> parse (Builder.wb y) <> Fails ->
  (parse (Builder.wb x) = Beyond \/ parse (Builder.wb y) = Beyond) ->
  parse (two_pat x y) = Beyond.
Proof.
  intros Nx Ny Hb.
  destruct (parse_cases (Builder.wb x)) as [Fx|[(tx & fx & Lx & Px & Dx)|(Bx & [Lx|(tx & Lx & Px)])]];
    [congruence| | |].
  all: unfold parse, lex.
  2: { unfold two_pat. rewrite (lex_app_beyond _ _ _ Lx). reflexivity. }
  all: destruct (parse_cases (Builder.wb y)) as [Fy|[(ty & fy & Ly & Py & Dy)|(By & [Ly|(ty & Ly & Py)])]];
    try congruence.
  all: try (rewrite (lex_two_beyond_y _ _ _ Lx Ly); reflexivity).
  all: rewrite (lex_two_done _ _ _ _ Lx Ly); cbn [obind].
  all: replace (tx ++ dsT ++ ty ++ [TBar] ++ ty ++ dsT ++ tx)
         with ((tx ++ dsT ++ ty) ++ [TBar] ++ (ty ++ dsT ++ tx))
         by (rewrite <- !app_assoc; reflexivity).
  - destruct Hb as [Hb|Hb]; congruence.
  - destruct (lex_wb_head _ _ _ Ly) as [ty' Ey].
    rewrite (process_beyond_app _ _ _ (proc_seq_beyond _ _ _ _ _ _ Ey Px Py)). reflexivity.
  - rewrite (process_beyond_app (tx ++ dsT ++ ty) _ _
               (process_beyond_app tx _ _ Px)). reflexivity.
  - rewrite (process_beyond_app (tx ++ dsT ++ ty) _ _
               (process_beyond_app tx _ _ Px)). reflexivity.
Qed.

Lemma parse_two_sym x y :
  parse (Builder.wb x) <> Fails -> parse (Builder.wb y) <> Fails ->
  (parse (two_pat x y) = Beyond /\ parse (two_pat y x) = Beyond /\
   (parse (Builder.wb x) = Beyond \/ parse (Builder.wb y) = Beyond)) \/
  (exists rx ry l1 l2, parse (Builder.wb x) = Done rx /\ parse (Builder.wb y) = Done ry /\
     l1 <> [] /\ l2 <> [] /\
     parse (two_pat x y) = Done (frame_alts (l1 ++ l2)) /\
     parse (two_pat y x) = Done (frame_alts (l2 ++ l1))).
Proof.
  intros Nx Ny.
  destruct (parse_cases (Builder.wb x)) as [Fx|[(tx & fx & Lx & Px & Dx)|(Bx & _)]];
    [congruence| |].
  - destruct (parse_cases (Builder.wb y)) as [Fy|[(ty & fy & Ly & Py & Dy)|(By & _)]];
      [congruence| |].
    + right. do 4 eexists. split; [exact Dx|split; [exact Dy|]].
      split; [apply alts_of_nonempty|split; [apply alts_of_nonempty|]].
      split; [exact (parse_two_good _ _ _ _ _ _ Lx Px Ly Py)|].
      exact (parse_two_good _ _ _ _ _ _ Ly Py Lx Px).
    + left. split; [|split]; auto; apply parse_two_beyond; auto.
  - left. split; [|split]; auto; apply parse_two_beyond; auto.
Qed.

End RxFacts.


(** ** Name query builder *)

Module BuilderFacts.
Import Rx Aux RxFacts Builder.


Lemma eval_regex f p m :
  eval_q (QRegex f p) m =
  match parse p with Done r => search (list_ascii_of_string (get_field m f)) r | _ => false end.
Proof. reflexivity. Qed.

Lemma two_word_patterns x y :
  q_patterns (_build_two_word_query x y) = [wb x; wb y; wb y; wb x; two_pat x y].
Proof. reflexivity. Qed.

Lemma two_word_eval x y m :
  eval_q (_build_two_word_query x y) m =
  (eval_q (QRegex FFirst (wb x)) m && eval_q (QRegex FLast (wb y)) m) ||
  (eval_q (QRegex FFirst (wb y)) m && eval_q (QRegex FLast (wb x)) m) ||
  eval_q (QRegex FName (two_pat x y)) m.
Proof.
  unfold _build_two_word_query. cbn [eval_q existsb forallb].
  rewrite !andb_true_r, orb_false_r, orb_assoc. reflexivity.
Qed.

Lemma check_two x y p :
  check_patterns [x; y; y; x; p] =
  if is_fails (parse x) || is_fails (parse y) || is_fails (parse p) then Fails
  else if is_beyond (parse x) || is_beyond (parse y) || is_beyond (parse p) then Beyond
  else Done tt.
Proof.
  unfold check_patterns; simpl.
  destruct (parse x), (parse y), (parse p); reflexivity.
Qed.

Lemma two_word_query_sym x y m :
  eval_query (_build_two_word_query x y) m = eval_query (_build_two_word_query y x) m.
Proof.
  unfold eval_query. rewrite !two_word_patterns, !check_two, !two_word_eval.
  destruct (parse (wb x)) eqn:Ex; destruct (parse (wb y)) eqn:Ey;
    try (cbn [is_fails orb]; rewrite ?orb_true_r; reflexivity).
  all: destruct (parse_two_sym x y) as [(B1 & B2 & _)|(rx & ry & l1 & l2 & Dx & Dy & N1 & N2 & P1 & P2)];
    try congruence.
  all: try (rewrite B1, B2; reflexivity).
  rewrite P1, P2. cbn [is_fails is_beyond orb obind].
  rewrite !(eval_regex FName), P1, P2, (search_frame_alts_comm _ _ _ N1 N2).
  destruct (eval_q (QRegex FFirst (wb x)) m), (eval_q (QRegex FLast (wb y)) m),
           (eval_q (QRegex FFirst (wb y)) m), (eval_q (QRegex FLast (wb x)) m); reflexivity.
Qed.

End BuilderFacts.

(** ** Literal patterns *)

Module LitFacts.
Import Rx Aux RxFacts.

Lemma normal_char_plain c :
  special c = false -> normal_char c = Done (LN, [TAtom (RChr c) true]).
Proof. destruct c as [[] [] [] [] [] [] [] []]; try discriminate; reflexivity. Qed.

Lemma lex_plain w :
  plain w = true -> lex_run LN w = Done (LN, atom_toks (chr_atoms w)).
Proof.
  induction w as [|c w IH]; simpl; [reflexivity|].
  intros H. apply andb_prop in H as [Hc Hw]. apply negb_true_iff in Hc.
  rewrite (normal_char_plain c Hc). cbn [obind]. rewrite (IH Hw). reflexivity.
Qed.

Lemma process_atoms ps alts cur up :
  process (atom_toks ps) ((alts, cur) :: up) =
  Done ((alts, rev (map (fun p => (fst p, snd p, false)) ps) ++ cur) :: up).
Proof.
  revert cur; induction ps as [|[r b] ps IH]; intros cur; simpl; [reflexivity|].
  rewrite IH, <- app_assoc. reflexivity.
Qed.

Lemma seq_re_rev (l : list item) :
  seq_re (rev l) = fold_right (fun it acc => RCat (fst (fst it)) acc) REps l.
Proof.
  unfold seq_re. rewrite <- (rev_involutive l) at 2.
  rewrite fold_left_rev_right. reflexivity.
Qed.

Lemma parse_atoms p ps :
  lex_run LN p = Done (LN, atom_toks ps) ->
  parse p = Done (fold_right RCat REps (map fst ps)).
Proof.
  intros H. unfold parse, lex. rewrite H. cbn [obind].
  unfold init. rewrite process_atoms, app_nil_r. cbn [obind].
  unfold frame_re; simpl. rewrite seq_re_rev. f_equal. clear H.
  induction ps as [|[r b] ps IH]; simpl; [reflexivity|rewrite IH; reflexivity].
Qed.

Lemma fold_chr_atoms w rest :
  fold_right RCat REps (map fst (chr_atoms w ++ rest)) = lits w (fold_right RCat REps (map fst rest)).
Proof. induction w as [|c w IH]; simpl; [reflexivity|rewrite IH; reflexivity]. Qed.

Lemma skipn_nth (s : list ascii) i :
  skipn i s = match nth_error s i with Some d => d :: skipn (S i) s | None => [] end.
Proof.
  revert i; induction s as [|c s IH]; intros [|i]; simpl; auto.
Qed.

Lemma ends_lits s w r i :
  ends s (lits w r) i = if ci_prefix w (skipn i s) then ends s r (i + length w) else [].
Proof.
  revert i; induction w as [|c w IH]; intros i; simpl.
  - rewrite Nat.add_0_r. reflexivity.
  - unfold one, at_. rewrite (skipn_nth s i).
    destruct (nth_error s i) as [d|]; simpl; [|reflexivity].
    destruct (ci c d); simpl; [|reflexivity].
    rewrite app_nil_r, IH. replace (S i + length w) with (i + S (length w)) by lia.
    reflexivity.
Qed.

Lemma lower_is_word c : is_word (lower c) = is_word c.
Proof. destruct c as [[] [] [] [] [] [] [] []]; reflexivity. Qed.

Lemma ci_is_word c d : ci c d = true -> is_word c = is_word d.
Proof.
  unfold ci, ceqb. intros H. apply Ascii.eqb_eq in H.
  rewrite <- (lower_is_word c), <- (lower_is_word d), H. reflexivity.
Qed.

(** [\b] followed by a literal. *)
Lemma search_wb_lits s w :
  search s (RCat RWordB (lits w REps)) = matches_word_start w s \/ w = [].
Proof.
  destruct w as [|c w]; [right; reflexivity|left].
  unfold search, matches_word_start. apply existsb_ext'. intros i.
  assert (E : ends s (RCat RWordB (lits (c :: w) REps)) i =
             if xorb (word_opt (prev s i)) (word_opt (at_ s i))
             then ends s (lits (c :: w) REps) i else []).
  { change (flat_map (ends s (lits (c :: w) REps)) (ends s RWordB i) =
            if xorb (word_opt (prev s i)) (word_opt (at_ s i))
            then ends s (lits (c :: w) REps) i else []).
    cbn [ends]. destruct (xorb _ _); simpl; rewrite ?app_nil_r; reflexivity. }
  rewrite E, ends_lits. unfold word_prefix_at.
  destruct (ci_prefix (c :: w) (skipn i s)) eqn:P;
    [|destruct (xorb _ _); reflexivity].
  rewrite skipn_nth in P. unfold at_.
  destruct (nth_error s i) as [d|]; [|discriminate].
  simpl in P. apply andb_prop in P as [P _]. rewrite (ci_is_word _ _ P).
  simpl. destruct (word_opt (prev s i)), (is_word d); reflexivity.
Qed.

End LitFacts.

(** ** Single-word and routing facts *)

Module WordFacts.
Import Rx Aux RxFacts LitFacts BuilderFacts Builder.

Lemma py_replace_char_plain c w :
  In c special_chars -> plain w = true -> py_replace_char c w = w.
Proof.
  intros Hc. induction w as [|d w IH]; simpl; [reflexivity|].
  intros H. apply andb_prop in H as [Hd Hw]. apply negb_true_iff in Hd.
  destruct (ceqb d c) eqn:E.
  - exfalso. unfold special in Hd.
    assert (Hx : existsb (ceqb d) special_chars = true)
      by (apply existsb_exists; exists c; auto).
    congruence.
  - rewrite (IH Hw). reflexivity.
Qed.

Lemma escape_plain w : plain w = true -> _escape_regex_special_chars w = w.
Proof.
  intros Hw. unfold _escape_regex_special_chars.
  assert (G : forall l t, (forall c, In c l -> In c special_chars) -> t = w ->
                fold_left (fun escaped c => py_replace_char c escaped) l t = w).
  { induction l as [|c l IH]; intros t Hl ->; simpl; [reflexivity|].
    apply IH; [intros; apply Hl; simpl; auto|].
    apply py_replace_char_plain; [apply Hl; simpl; auto|exact Hw]. }
  apply G; auto.
Qed.

Lemma split_aux_nonempty cur s : Forall (fun t => t <> []) (split_aux cur s).
Proof.
  revert cur; induction s as [|c s IH]; intros cur; simpl.
  - destruct cur as [|d cur]; constructor; [|constructor].
    intros E. apply (f_equal (@length ascii)) in E. rewrite length_rev in E. discriminate.
  - destruct (is_space c); [|apply IH].
    destruct cur as [|d cur]; [apply IH|]. constructor; [|apply IH].
    intros E. apply (f_equal (@length ascii)) in E. rewrite length_rev in E. discriminate.
Qed.

Lemma split_token_nonempty s w : In w (split s) -> w <> [].
Proof.
  intros H. pose proof (split_aux_nonempty [] s) as F.
  rewrite List.Forall_forall in F. exact (F w H).
Qed.

Lemma parse_wb_plain w :
  plain w = true -> parse (wb w) = Done (RCat RWordB (lits w REps)).
Proof.
  intros Hw. rewrite (parse_atoms (wb w) ((RWordB, false) :: chr_atoms w)).
  - simpl. rewrite <- (app_nil_r (chr_atoms w)), fold_chr_atoms. reflexivity.
  - rewrite lex_wb, (lex_plain w Hw). reflexivity.
Qed.

Lemma single_word_eval w m :
  plain w = true -> w <> [] ->
  eval_query (_build_single_word_query w) m =
  Done (matches_word_start w (list_ascii_of_string (first_name m)) ||
        matches_word_start w (list_ascii_of_string (last_name m)) ||
        matches_word_start w (list_ascii_of_string (name m))).
Proof.
  intros Hw Hn. unfold eval_query, _build_single_word_query.
  cbn [q_patterns flat_map app]. unfold check_patterns. cbn [map].
  rewrite (parse_wb_plain w Hw). cbn [existsb orb obind].
  cbn [eval_q existsb]. rewrite (parse_wb_plain w Hw). cbn [get_field].
  destruct (search_wb_lits (list_ascii_of_string (first_name m)) w) as [E1|]; [|congruence].
  destruct (search_wb_lits (list_ascii_of_string (last_name m)) w) as [E2|]; [|congruence].
  destruct (search_wb_lits (list_ascii_of_string (name m)) w) as [E3|]; [|congruence].
  rewrite E1, E2, E3, orb_false_r, orb_assoc. reflexivity.
Qed.

Lemma route_single s w :
  split (_normalize_search_term (list_ascii_of_string s)) = [w] -> plain w = true ->
  _build_name_search_query (list_ascii_of_string s) = _build_single_word_query w.
Proof.
  intros H Hw. unfold _build_name_search_query.
  destruct (_normalize_search_term (list_ascii_of_string s)) as [|c l] eqn:N;
    [discriminate|].
  cbv beta iota zeta. rewrite H. cbn [map]. rewrite (escape_plain w Hw). reflexivity.
Qed.

Lemma route_two s a b :
  split (_normalize_search_term (list_ascii_of_string s)) = [a; b] ->
  _build_name_search_query (list_ascii_of_string s) =
  _build_two_word_query (_escape_regex_special_chars a) (_escape_regex_special_chars b).
Proof.
  intros H. unfold _build_name_search_query.
  destruct (_normalize_search_term (list_ascii_of_string s)) as [|c l] eqn:N;
    [discriminate|].
  cbv beta iota zeta. rewrite H. reflexivity.
Qed.

Lemma py_replace_char_app c x y :
  py_replace_char c (x ++ y) = py_replace_char c x ++ py_replace_char c y.
Proof. unfold py_replace_char. apply flat_map_app. Qed.

Lemma escape_app x y :
  _escape_regex_special_chars (x ++ y) =
  _escape_regex_special_chars x ++ _escape_regex_special_chars y.
Proof.
  unfold _escape_regex_special_chars. generalize special_chars as l.
  intros l; revert x y; induction l as [|c l IH]; intros x y; simpl; [reflexivity|].
  rewrite py_replace_char_app. apply IH.
Qed.

(** The three backslashes of [special_chars] turn ["("] into four
    backslashes and a bare ["("]. *)
Lemma escape_paren_token a b :
  plain a = true -> plain b = true ->
  _escape_regex_special_chars (a ++ "("%char :: b) = a ++ [bs; bs; bs; bs; "("%char] ++ b.
Proof.
  intros Ha Hb. change (a ++ "("%char :: b) with (a ++ ["("%char] ++ b).
  rewrite !escape_app, (escape_plain a Ha), (escape_plain b Hb). reflexivity.
Qed.

Lemma route_single_escaped s w :
  split (_normalize_search_term (list_ascii_of_string s)) = [w] ->
  _build_name_search_query (list_ascii_of_string s) =
  _build_single_word_query (_escape_regex_special_chars w).
Proof.
  intros H. unfold _build_name_search_query.
  destruct (_normalize_search_term (list_ascii_of_string s)) as [|c l] eqn:N;
    [discriminate|].
  cbv beta iota zeta. rewrite H. reflexivity.
Qed.

(** Two literal backslashes and an open group that is never closed. *)
Lemma parse_wb_paren_fails a b :
  plain a = true -> plain b = true ->
  parse (wb (a ++ [bs; bs; bs; bs; "("%char] ++ b)) = Fails.
Proof.
  intros Ha Hb. unfold parse, lex. rewrite lex_wb.
  rewrite (lex_app_done LN a _ LN _ (lex_plain a Ha)).
  rewrite (lex_app_done LN [bs; bs; bs; bs; "("%char] b LN
             [TAtom (RChr bs) true; TAtom (RChr bs) true; TOpen] eq_refl).
  rewrite (lex_plain b Hb). cbn [obind].
  unfold init. cbn [process step obind].
  rewrite process_app, process_atoms. cbn [obind].
  rewrite process_app. cbn [process step obind].
  rewrite process_atoms. reflexivity.
Qed.

End WordFacts.

(** ** Name Matcher *)

Module MatcherFacts.
Import Rx Aux RxFacts LitFacts BuilderFacts Matcher.

Lemma parse_anchored w :
  plain w = true ->
  parse ("^"%char :: w ++ ["$"%char]) = Done (RCat RBol (lits w (RCat REol REps))) /\
  parse ("^"%char :: w) = Done (RCat RBol (lits w REps)).
Proof.
  intros Hw. split.
  - rewrite (parse_atoms _ ((RBol, false) :: chr_atoms w ++ [(REol, false)])).
    + simpl. rewrite fold_chr_atoms. reflexivity.
    + simpl. rewrite (lex_app_done _ _ _ _ _ (lex_plain w Hw)). cbn [obind].
      simpl. unfold atom_toks. rewrite map_app. reflexivity.
  - rewrite (parse_atoms _ ((RBol, false) :: chr_atoms w)).
    + simpl. rewrite <- (app_nil_r (chr_atoms w)), fold_chr_atoms. reflexivity.
    + simpl. rewrite (lex_plain w Hw). reflexivity.
Qed.

Lemma search_bol s r : search s (RCat RBol r) = nonempty (ends s r 0).
Proof.
  unfold search. cbn [seq existsb].
  replace (existsb _ (seq 1 (length s))) with false.
  - simpl. rewrite app_nil_r, orb_false_r. destruct (ends s r 0); reflexivity.
  - rewrite <- seq_shift. induction (seq 0 (length s)) as [|j l IH]; simpl; auto.
Qed.

Lemma search_exact s w :
  search s (RCat RBol (lits w (RCat REol REps))) = ci_equal_nl w s.
Proof.
  rewrite search_bol, ends_lits. change (skipn 0 s) with s. unfold ci_equal_nl.
  destruct (ci_prefix w s); [|reflexivity]. cbn [andb]. change (0 + length w) with (length w).
  change (ends s (RCat REol REps) (length w)) with
    (flat_map (ends s REps)
       (if (length w =? length s) ||
           ((S (length w) =? length s) &&
            match at_ s (length w) with Some d => ceqb d nl | None => false end)
        then [length w] else [])).
  unfold at_. destruct (_ || _); reflexivity.
Qed.

Lemma search_prefix s w : search s (RCat RBol (lits w REps)) = ci_prefix w s.
Proof.
  rewrite search_bol, ends_lits. change (skipn 0 s) with s.
  destruct (ci_prefix w s); reflexivity.
Qed.

Lemma find_ext {A} (f g : A -> bool) l : (forall x, f x = g x) -> find f l = find g l.
Proof. intros H; induction l as [|x l IH]; simpl; [reflexivity|rewrite H, IH; reflexivity]. Qed.

Lemma find_ext_in {A} (f g : A -> bool) l :
  (forall x, In x l -> f x = g x) -> find f l = find g l.
Proof.
  intros H; induction l as [|x l IH]; simpl; [reflexivity|].
  rewrite (H x (or_introl eq_refl)), IH; [reflexivity|intros; apply H; simpl; auto].
Qed.

Lemma ci_equal_nl_no_nl w s :
  no_trailing_nl s = true -> ci_equal_nl w s = ci_equal w s.
Proof.
  unfold ci_equal_nl, ci_equal.
  induction s as [|d s' _] using rev_ind; intros H.
  - destruct (ci_prefix w []), (length w =? length (@nil ascii)); reflexivity.
  - unfold no_trailing_nl in H. rewrite rev_app_distr in H. cbn [rev app] in H.
    apply negb_true_iff in H.
    destruct (ci_prefix w (s' ++ [d])); cbn [andb]; [|reflexivity].
    destruct (length w =? length (s' ++ [d])); cbn [orb]; [reflexivity|].
    rewrite length_app. cbn [length].
    destruct (Nat.eqb_spec (S (length w)) (length s' + 1)) as [E|]; cbn [andb]; [|reflexivity].
    replace (length w) with (length s') by lia.
    rewrite nth_error_app2, Nat.sub_diag by lia. cbn [nth_error]. exact H.
Qed.

Lemma find_exact_spec store first last st ch :
  forallb names_without_trailing_nl store = true ->
  find (exact_match first last st ch) store = find (spec_exact_match first last st ch) store.
Proof.
  intros F. apply find_ext_in. intros m Hm.
  rewrite forallb_forall in F. specialize (F m Hm).
  unfold names_without_trailing_nl in F. apply andb_prop in F as [F1 F2].
  unfold exact_match, spec_exact_match. rewrite !ci_equal_nl_no_nl by assumption.
  reflexivity.
Qed.

Lemma find_exact store first last st ch :
  plain (list_ascii_of_string first) = true -> plain (list_ascii_of_string last) = true ->
  mongo_find_one store (exact_query first last st ch) =
  Done (find (exact_match first last st ch) store).
Proof.
  intros Hf Hl.
  destruct (parse_anchored _ Hf) as [Pf _]. destruct (parse_anchored _ Hl) as [Pl _].
  unfold mongo_find_one, exact_query, check_patterns. cbn [q_patterns flat_map app map].
  rewrite Pf, Pl. cbn [existsb orb obind]. f_equal. apply find_ext. intros m.
  cbn [eval_q forallb app]. rewrite Pf, Pl. cbn [get_field].
  rewrite !search_exact. unfold exact_match. rewrite !andb_true_r, !andb_assoc. reflexivity.
Qed.

Lemma find_partial store last st ch :
  plain (list_ascii_of_string last) = true ->
  mongo_find_one store (partial_query last st ch) =
  Done (find (prefix_match last st ch) store).
Proof.
  intros Hl. destruct (parse_anchored _ Hl) as [_ Pl].
  unfold mongo_find_one, partial_query, check_patterns. cbn [q_patterns flat_map app map].
  rewrite Pl. cbn [existsb orb obind]. f_equal. apply find_ext. intros m.
  cbn [eval_q forallb app]. rewrite Pl. cbn [get_field].
  rewrite !search_prefix. unfold prefix_match. rewrite !andb_true_r, !andb_assoc. reflexivity.
Qed.


End MatcherFacts.

(** ** Senate vote path *)

Module SenateFacts.
Import Aux MatcherFacts Matcher SenateVotes.




End SenateFacts.

(* ------------------------------------------------------------------ *)
(** ** Properties of the bill store and the sync loop *)

Module BillsFacts.
Import Bills.

Section Store.
Variable Core : Type.
Implicit Types (d doc : bill_doc Core) (docs ds : list (bill_doc Core)).

Lemma replace_first_find i bid doc docs ds :
  bid <> i -> bill_id doc <> i -> replace_first bid doc docs = Some ds ->
  find_by_id i ds = find_by_id i docs.
Proof.
  intros Hb Hd. revert ds; induction docs as [|e rest IH]; intros ds; simpl; [discriminate|].
  destruct (String.eqb (bill_id e) bid) eqn:E.
  - intros H; inversion H; subst; clear H. apply String.eqb_eq in E.
    unfold find_by_id; simpl.
    destruct (String.eqb_spec (bill_id doc) i); [contradiction|].
    destruct (String.eqb_spec (bill_id e) i); [congruence|]. reflexivity.
  - destruct (replace_first bid doc rest) as [ds'|] eqn:R; simpl; [|discriminate].
    intros H; inversion H; subst; clear H. unfold find_by_id in *; simpl.
    rewrite (IH ds' eq_refl). reflexivity.
Qed.

Lemma replace_first_count i bid doc docs ds :
  bid <> i -> replace_first bid doc docs = Some ds ->
  count_id i ds = count_id i docs + (if String.eqb (bill_id doc) i then 1 else 0).
Proof.
  intros Hb. revert ds; induction docs as [|e rest IH]; intros ds; simpl; [discriminate|].
  destruct (String.eqb (bill_id e) bid) eqn:E.
  - intros H; inversion H; subst; clear H. apply String.eqb_eq in E.
    unfold count_id; simpl.
    destruct (String.eqb_spec (bill_id e) i); [congruence|].
    destruct (String.eqb (bill_id doc) i); simpl; lia.
  - destruct (replace_first bid doc rest) as [ds'|] eqn:R; simpl; [|discriminate].
    intros H; inversion H; subst; clear H. specialize (IH ds' eq_refl).
    unfold count_id in *; simpl.
    destruct (String.eqb (bill_id e) i); simpl; rewrite IH; reflexivity.
Qed.

Lemma find_count i docs d : find_by_id i docs = Some d -> 1 <= count_id i docs.
Proof.
  unfold find_by_id, count_id. induction docs as [|e rest IH]; simpl; [discriminate|].
  destruct (String.eqb (bill_id e) i); simpl; [lia|]. intros H; specialize (IH H); lia.
Qed.

Lemma find_app_last i docs x d :
  find_by_id i docs = Some d -> find_by_id i (docs ++ [x]) = Some d.
Proof.
  unfold find_by_id. induction docs as [|e rest IH]; simpl; [discriminate|].
  destruct (String.eqb (bill_id e) i); auto.
Qed.

Lemma count_app_last i docs x :
  count_id i (docs ++ [x]) = count_id i docs + (if String.eqb (bill_id x) i then 1 else 0).
Proof.
  unfold count_id. rewrite List.filter_app, List.length_app. simpl.
  destruct (String.eqb (bill_id x) i); reflexivity.
Qed.

(** An upsert keyed by another id leaves a stored document in place: a
    write that would give a second document its id breaks the unique index. *)
Lemma upsert_keeps d bid doc docs docs' :
  bid <> bill_id d -> find_by_id (bill_id d) docs = Some d ->
  update_one_upsert bid doc docs = Ok docs' -> find_by_id (bill_id d) docs' = Some d.
Proof.
  intros Hb Hf. unfold update_one_upsert.
  set (ds := match replace_first bid doc docs with Some ds => ds | None => docs ++ [doc] end).
  destruct (Nat.leb (count_id (bill_id doc) ds) 1) eqn:L; [|discriminate].
  intros H; inversion H; subst docs'; clear H.
  apply Nat.leb_le in L. pose proof (find_count _ _ _ Hf) as C.
  destruct (String.eqb_spec (bill_id doc) (bill_id d)) as [Ed|Nd].
  - exfalso. rewrite Ed in L. unfold ds in L.
    destruct (replace_first bid doc docs) as [ds'|] eqn:R.
    + rewrite (replace_first_count _ _ _ _ _ Hb R), Ed, String.eqb_refl in L. lia.
    + rewrite count_app_last, Ed, String.eqb_refl in L. lia.
  - unfold ds. destruct (replace_first bid doc docs) as [ds'|] eqn:R.
    + rewrite (replace_first_find _ _ _ _ _ Hb Nd R). exact Hf.
    + apply find_app_last. exact Hf.
Qed.

End Store.

Section Loop.
Variables Base Summ Subj Core : Type.
Variable cl : client Base Summ Subj Core.

(** A document fresh at every step of the loop is neither fetched nor
    written: it stays the one found under its id, and its id never enters
    the trace of fetched ids. *)
Lemma sync_items_fresh_kept (d : bill_doc Core) (u : Z) now_at items :
  updated_at d = Some u -> (forall j, (now_at j - u < 3600)%Z) ->
  forall k st n r st',
  find_by_id (bill_id d) (docs st) = Some d ->
  sync_items cl now_at k items st n = (r, st') ->
  find_by_id (bill_id d) (docs st') = Some d /\
  exists l, fetched st' = fetched st ++ l /\ ~ In (bill_id d) l.
Proof.
  intros Hu Hnow. induction items as [|it rest IH]; intros k st n r st' Hf; simpl.
  - intros H; inversion H; subst. split; [exact Hf|]. exists []. split; [rewrite app_nil_r; reflexivity|simpl; tauto].
  - destruct (li_number it) as [num|]; [|apply IH; exact Hf].
    destruct (String.eqb (lower_s (li_type it)) "" || String.eqb num "");
      [apply IH; exact Hf|].
    set (bid := (lower_s (li_type it) ++ num ++ "-" ++ li_congress it)%string).
    destruct (fresh (now_at k) (find_by_id bid (docs st))) eqn:Fr; [apply IH; exact Hf|].
    assert (Nb : bid <> bill_id d).
    { intros E. rewrite E, Hf in Fr. simpl in Fr. rewrite Hu in Fr.
      apply Z.ltb_ge in Fr. specialize (Hnow k). lia. }
    assert (Tr : forall st2, fetched st2 = fetched st ++ [bid] ->
       find_by_id (bill_id d) (docs st2) = Some d ->
       sync_items cl now_at (S k) rest st2 n = (r, st') \/
       sync_items cl now_at (S k) rest st2 (S n) = (r, st') ->
       find_by_id (bill_id d) (docs st') = Some d /\
       exists l, fetched st' = fetched st ++ l /\ ~ In (bill_id d) l).
    { intros st2 E2 Hf2 Hs.
      assert (IH' : find_by_id (bill_id d) (docs st') = Some d /\
                    exists l, fetched st' = fetched st2 ++ l /\ ~ In (bill_id d) l)
        by (destruct Hs as [Hs|Hs]; exact (IH _ _ _ _ _ Hf2 Hs)).
      destruct IH' as (Hd & l & El & Nl). split; [exact Hd|].
      exists (bid :: l). rewrite El, E2, <- app_assoc. split; [reflexivity|].
      simpl. intros [E|E]; [congruence|contradiction]. }
    destruct (fetch_bill_complete cl (now_at k) (li_congress it) (lower_s (li_type it)) num)
      as [cb|].
    + destruct (update_one_upsert bid cb (docs st)) as [ds|] eqn:U.
      * intros Hs. apply (Tr (mkSync ds (fetched st ++ [bid]))); simpl; auto.
        exact (upsert_keeps _ d bid cb (docs st) ds Nb Hf U).
      * intros H; inversion H; subst; clear H. simpl. split; [exact Hf|].
        exists [bid]. split; [reflexivity|]. simpl. intros [E|E]; [congruence|contradiction].
    + intros Hs. apply (Tr (mkSync (docs st) (fetched st ++ [bid]))); simpl; auto.
Qed.

(** A pass that finishes its loop marks the default scope, so the identical
    search that follows makes no sync call. *)
Lemma completed_pass_no_resync (count : list (bill_doc Core) -> Z) now_at ps
    (w : world Core) bl n st :
  existsb (Z.eqb 119) (synced w) = false ->
  search_bills cl 119 50 = Ok bl ->
  sync_items cl now_at 0 bl (store w) 0 = (Ok n, st) ->
  (count (docs (store w)) < ps)%Z ->
  sync_calls (snd (search_bills_counts cl count now_at None ps
                     (snd (search_bills_counts cl count now_at None ps w)))) =
  sync_calls (snd (search_bills_counts cl count now_at None ps w)).
Proof.
  intros Hs E Hi Hc. apply Z.ltb_lt in Hc.
  assert (W1 : snd (search_bills_counts cl count now_at None ps w) =
               mkWorld (synced w ++ [119%Z]) st (S (sync_calls w))).
  { unfold search_bills_counts, sync_recent_bills. cbn -[existsb Z.eqb Z.ltb].
    rewrite Hc, Hs. cbn -[existsb Z.eqb Z.ltb]. rewrite E, Hi. reflexivity. }
  rewrite W1. unfold search_bills_counts. cbn -[existsb Z.eqb Z.ltb].
  rewrite existsb_app. simpl. rewrite orb_true_r, andb_false_r. reflexivity.
Qed.

End Loop.

End BillsFacts.

(* ------------------------------------------------------------------ *)
(** * The claims *)

Module Claims.
Import Rx Aux RxFacts LitFacts BuilderFacts WordFacts MatcherFacts Builder.

(** C1 (code bug): [special_chars] lists the backslash three times, so
    every other metacharacter [c] is escaped to four backslashes followed by
    a bare [c] (two literal backslashes, then a live [c]), and a backslash
    to eight backslashes. Hence a single search token of the form [a(b],
    with [a] and [b] free of metacharacters, yields a pattern with an
    unclosed group: the query raises for every member instead of matching
    the parenthesis literally. *)
Theorem escaping_slip_raises :
  (forall c, In c special_chars -> c <> bs ->
     _escape_regex_special_chars [c] = [bs; bs; bs; bs; c]) /\
  _escape_regex_special_chars [bs] = [bs; bs; bs; bs; bs; bs; bs; bs] /\
  (forall (s : string) (a b : list ascii) (m : member),
     plain a = true -> plain b = true ->
     split (_normalize_search_term (list_ascii_of_string s)) = [a ++ "("%char :: b] ->
     name_matches s m = Fails).
Proof.
  split; [|split].
  - intros c H Hc. cbn [special_chars In] in H.
    repeat destruct H as [<-|H]; try contradiction;
      first [exfalso; apply Hc; reflexivity | vm_compute; reflexivity].
  - vm_compute. reflexivity.
  - intros s a b m Ha Hb H. unfold name_matches.
    rewrite (route_single_escaped _ _ H), (escape_paren_token a b Ha Hb).
    pose proof (parse_wb_paren_fails a b Ha Hb) as P.
    remember (a ++ [bs; bs; bs; bs; "("%char] ++ b) as p eqn:Ep. clear Ep.
    unfold eval_query, _build_single_word_query. cbn [q_patterns flat_map app].
    unfold check_patterns. cbn [map]. rewrite P. reflexivity.
Qed.

Lemma escaping_slip_raises_witness :
  _escape_regex_special_chars ["("%char] = [bs; bs; bs; bs; "("%char] /\
  plain (list_ascii_of_string "Smith") = true /\
  plain (list_ascii_of_string "Jr") = true /\
  name_matches "Smith(Jr" (mkMember "S000001" "Smith (Jr.)" "Smith" "(Jr.)" "TX" "R" "house")
    = Fails.
Proof.
  destruct escaping_slip_raises as [H1 [_ H3]].
  split; [|split; [reflexivity|split; [reflexivity|]]].
  - apply H1; [vm_compute; tauto | discriminate].
  - apply (H3 "Smith(Jr" (list_ascii_of_string "Smith") (list_ascii_of_string "Jr")); reflexivity.
Defined.

(** C7 (counterexample): ["Kate"] matches a member whose first name is
    ["Mary-Kate"], though it is a prefix of no whitespace-delimited word of
    the first name, the last name or the full name. *)
Lemma single_token_counterexample :
  name_matches "Kate" (mkMember "K000001" "Mary-Kate Smith" "Mary-Kate" "Smith" "NY" "D" "house")
    = Done true /\
  spec_word_prefix (list_ascii_of_string "Kate") (list_ascii_of_string "Mary-Kate") = false /\
  spec_word_prefix (list_ascii_of_string "Kate") (list_ascii_of_string "Smith") = false /\
  spec_word_prefix (list_ascii_of_string "Kate") (list_ascii_of_string "Mary-Kate Smith") = false.
Proof. split; [|split; [|split]]; vm_compute; reflexivity. Qed.

(** C7 (amended): for every raw input that normalizes to a single token [w]
    free of regex metacharacters, the predicate matches a member exactly when,
    in its first name, last name or full name, [w] occurs caselessly at a
    word boundary: at a position whose preceding character (if any) is a word
    character exactly when the first character of [w] is not. *)
Theorem single_token_word_start (s : string) (w : list ascii) (m : member) :
  split (_normalize_search_term (list_ascii_of_string s)) = [w] ->
  plain w = true ->
  name_matches s m =
  Done (matches_word_start w (list_ascii_of_string (first_name m)) ||
        matches_word_start w (list_ascii_of_string (last_name m)) ||
        matches_word_start w (list_ascii_of_string (name m))).
Proof.
  intros H Hw. unfold name_matches. rewrite (route_single s w H Hw).
  apply single_word_eval; [exact Hw|].
  apply (split_token_nonempty (_normalize_search_term (list_ascii_of_string s))).
  rewrite H. simpl; auto.
Qed.

Lemma single_token_word_start_witness :
  split (_normalize_search_term (list_ascii_of_string "Mic")) = [list_ascii_of_string "Mic"] /\
  plain (list_ascii_of_string "Mic") = true /\
  name_matches "Mic" (mkMember "M000001" "Michael Dominic" "Michael" "Dominic" "CA" "D" "house") =
  Done (matches_word_start (list_ascii_of_string "Mic") (list_ascii_of_string "Michael") ||
        matches_word_start (list_ascii_of_string "Mic") (list_ascii_of_string "Dominic") ||
        matches_word_start (list_ascii_of_string "Mic") (list_ascii_of_string "Michael Dominic")).
Proof.
  split; [reflexivity|split; [reflexivity|]].
  apply (single_token_word_start "Mic" (list_ascii_of_string "Mic")); reflexivity.
Defined.

(** C8: for every raw input that normalizes to two tokens [A B] and every
    raw input that normalizes to [B A], the two predicates give the same
    outcome on every member document. *)
Theorem two_token_symmetric (s1 s2 : string) (a b : list ascii) (m : member) :
  split (_normalize_search_term (list_ascii_of_string s1)) = [a; b] ->
  split (_normalize_search_term (list_ascii_of_string s2)) = [b; a] ->
  name_matches s1 m = name_matches s2 m.
Proof.
  intros H1 H2. unfold name_matches.
  rewrite (route_two s1 a b H1), (route_two s2 b a H2).
  apply two_word_query_sym.
Qed.

Lemma two_token_symmetric_witness :
  split (_normalize_search_term (list_ascii_of_string "Mike Lee")) =
    [list_ascii_of_string "Mike"; list_ascii_of_string "Lee"] /\
  split (_normalize_search_term (list_ascii_of_string "  Lee   Mike")) =
    [list_ascii_of_string "Lee"; list_ascii_of_string "Mike"] /\
  name_matches "Mike Lee" (mkMember "L000577" "Mike Lee" "Mike" "Lee" "UT" "R" "senate") =
  name_matches "  Lee   Mike" (mkMember "L000577" "Mike Lee" "Mike" "Lee" "UT" "R" "senate").
Proof.
  split; [reflexivity|split; [reflexivity|]].
  apply (two_token_symmetric "Mike Lee" "  Lee   Mike" (list_ascii_of_string "Mike")
           (list_ascii_of_string "Lee")); reflexivity.
Defined.

(** C3 (counterexample): the state is compared after [upper()], so a
    query for state ["ca"] resolves a member stored with state ["CA"],
    although no stored member has state ["ca"]. *)
Lemma name_matcher_counterexample :
  match Matcher.find_bioguide_by_name_state
          (mongo_find_one [mkMember "P000145" "Alex Padilla" "Alex" "Padilla" "CA" "D" "senate"])
          ∅ "Alex" "Padilla" "ca" "senate" with
  | Done (r, _) => r
  | _ => None
  end = Some "P000145"%string /\
  existsb (fun m => String.eqb (state m) "ca")
    [mkMember "P000145" "Alex Padilla" "Alex" "Padilla" "CA" "D" "senate"] = false.
Proof. split; vm_compute; reflexivity. Qed.

(** C3 (amended): for names free of regex metacharacters, a store whose
    names do not end in a newline and a key not yet cached, the matcher
    returns the id of the first stored member whose first and last names
    equal the queried ones by caseless full-string equality, whose state is
    the upper-cased queried state and whose chamber is the lower-cased
    queried chamber; failing that, the id of
    the first stored member whose last name starts caselessly with the queried
    last name, with the same state and chamber conditions; failing that, None.
    A store error in either lookup gives None. A cached key returns its entry
    without consulting the store. *)
Theorem name_matcher_lookup (store : list member) (fo : query -> outcome (option member))
    (c : Matcher.cache) (first last st ch : string) :
  plain (list_ascii_of_string first) = true ->
  plain (list_ascii_of_string last) = true ->
  forallb names_without_trailing_nl store = true ->
  (c !! Matcher.cache_key first last st ch = None ->
   exists c', Matcher.find_bioguide_by_name_state (mongo_find_one store) c first last st ch =
     Done (match find (spec_exact_match first last st ch) store with
           | Some m => Some (bioguide_id m)
           | None => option_map bioguide_id (find (prefix_match last st ch) store)
           end, c')) /\
  (c !! Matcher.cache_key first last st ch = None ->
   fo (Matcher.exact_query first last st ch) = Fails ->
   Matcher.find_bioguide_by_name_state fo c first last st ch = Done (None, c)) /\
  (c !! Matcher.cache_key first last st ch = None ->
   fo (Matcher.exact_query first last st ch) = Done None ->
   fo (Matcher.partial_query last st ch) = Fails ->
   Matcher.find_bioguide_by_name_state fo c first last st ch = Done (None, c)) /\
  (forall v, c !! Matcher.cache_key first last st ch = Some v ->
   Matcher.find_bioguide_by_name_state fo c first last st ch = Done (Some v, c)).
Proof.
  intros Hf Hl Hn. unfold Matcher.find_bioguide_by_name_state.
  split; [|split; [|split]].
  - intros K. rewrite K, (find_exact _ _ _ _ _ Hf Hl), (find_exact_spec _ _ _ _ _ Hn).
    destruct (find (spec_exact_match first last st ch) store) as [m|].
    + eexists; reflexivity.
    + rewrite (find_partial _ _ _ _ Hl).
      destruct (find (prefix_match last st ch) store) as [m|]; eexists; reflexivity.
  - intros K F. rewrite K, F. reflexivity.
  - intros K F1 F2. rewrite K, F1, F2. reflexivity.
  - intros v K. rewrite K. reflexivity.
Qed.

Lemma name_matcher_lookup_witness :
  plain (list_ascii_of_string "Alex") = true /\
  plain (list_ascii_of_string "Padilla") = true /\
  forallb names_without_trailing_nl
    [mkMember "P000145" "Alex Padilla" "Alex" "Padilla" "CA" "D" "senate"] = true /\
  ((∅ : Matcher.cache) !! Matcher.cache_key "Alex" "Padilla" "ca" "senate" = None ->
   exists c', Matcher.find_bioguide_by_name_state
     (mongo_find_one [mkMember "P000145" "Alex Padilla" "Alex" "Padilla" "CA" "D" "senate"])
     ∅ "Alex" "Padilla" "ca" "senate" =
     Done (match find (spec_exact_match "Alex" "Padilla" "ca" "senate")
                   [mkMember "P000145" "Alex Padilla" "Alex" "Padilla" "CA" "D" "senate"] with
           | Some m => Some (bioguide_id m)
           | None => option_map bioguide_id (find (prefix_match "Padilla" "ca" "senate")
                       [mkMember "P000145" "Alex Padilla" "Alex" "Padilla" "CA" "D" "senate"])
           end, c')).
Proof.
  split; [reflexivity|split; [reflexivity|split; [reflexivity|]]].
  apply (name_matcher_lookup [mkMember "P000145" "Alex Padilla" "Alex" "Padilla" "CA" "D" "senate"]
           (fun _ => Fails) ∅ "Alex" "Padilla" "ca" "senate"); reflexivity.
Defined.

(** C10: the matcher's cache changes only by recording, under the key, the
    id of a member a lookup returned; a call that resolves nothing or meets a
    store error leaves the cache as it was, so a later call with the same
    inputs queries the store again and resolves once the member is there. *)
Theorem cache_populated_on_success (fo : query -> outcome (option member))
    (c : Matcher.cache) (first last st ch : string) (r : option string) (c' : Matcher.cache) :
  Matcher.find_bioguide_by_name_state fo c first last st ch = Done (r, c') ->
  (r = None -> c' = c) /\
  (c' = c \/
   exists q m, fo q = Done (Some m) /\ r = Some (bioguide_id m) /\
     c' = <[Matcher.cache_key first last st ch := bioguide_id m]> c) /\
  (c !! Matcher.cache_key first last st ch = None -> r = None ->
   forall fo2 m2, fo2 (Matcher.exact_query first last st ch) = Done (Some m2) ->
   Matcher.find_bioguide_by_name_state fo2 c' first last st ch =
   Done (Some (bioguide_id m2), <[Matcher.cache_key first last st ch := bioguide_id m2]> c')).
Proof.
  unfold Matcher.find_bioguide_by_name_state at 1.
  destruct (c !! Matcher.cache_key first last st ch) as [v|] eqn:K.
  { intros E; inversion E; subst. split; [discriminate|split; [auto|congruence]]. }
  assert (Re : r = None -> c' = c ->
     forall fo2 m2, fo2 (Matcher.exact_query first last st ch) = Done (Some m2) ->
     Matcher.find_bioguide_by_name_state fo2 c' first last st ch =
     Done (Some (bioguide_id m2), <[Matcher.cache_key first last st ch := bioguide_id m2]> c')).
  { intros _ -> fo2 m2 F. unfold Matcher.find_bioguide_by_name_state. rewrite K, F. reflexivity. }
  destruct (fo (Matcher.exact_query first last st ch)) as [[m|]| |] eqn:F1; try discriminate.
  - intros E; inversion E; subst. split; [discriminate|split; [|discriminate]].
    right. exists (Matcher.exact_query first last st ch), m. auto.
  - destruct (fo (Matcher.partial_query last st ch)) as [[m|]| |] eqn:F2; try discriminate.
    + intros E; inversion E; subst. split; [discriminate|split; [|discriminate]].
      right. exists (Matcher.partial_query last st ch), m. auto.
    + intros E; inversion E; subst. split; [auto|split; [auto|]]. intros _ H. apply Re; auto.
    + intros E; inversion E; subst. split; [auto|split; [auto|]]. intros _ H. apply Re; auto.
  - intros E; inversion E; subst. split; [auto|split; [auto|]]. intros _ H. apply Re; auto.
Qed.

Lemma cache_populated_on_success_witness :
  Matcher.find_bioguide_by_name_state (mongo_find_one []) ∅ "Alex" "Padilla" "CA" "senate" =
    Done (None, ∅) /\
  ((None : option string) = None -> (∅ : Matcher.cache) = ∅).
Proof.
  split; [vm_compute; reflexivity|].
  exact (proj1 (cache_populated_on_success (mongo_find_one []) ∅ "Alex" "Padilla" "CA" "senate"
                  None ∅ eq_refl)).
Defined.



(** C9: during a sync pass, a bill document already stored under its id with
    an update timestamp less than one hour old at every step of the pass is
    left as it is: it is still the document stored under its id afterwards,
    and its id is not among the ids whose full detail the pass fetched. *)
Theorem fresh_bills_untouched {Base Summ Subj Core : Type}
    (cl : Bills.client Base Summ Subj Core) (now_at : nat -> Z) (congress limit : Z)
    (w : Bills.world Core) (d : Bills.bill_doc Core) (u n : Z) (w' : Bills.world Core) :
  Bills.find_by_id (Bills.bill_id d) (Bills.docs (Bills.store w)) = Some d ->
  Bills.updated_at d = Some u ->
  (forall j, (now_at j - u < 3600)%Z) ->
  Bills.sync_recent_bills cl now_at congress limit w = (n, w') ->
  Bills.find_by_id (Bills.bill_id d) (Bills.docs (Bills.store w')) = Some d /\
  exists l, Bills.fetched (Bills.store w') = Bills.fetched (Bills.store w) ++ l /\
            ~ In (Bills.bill_id d) l.
Proof.
  intros Hf Hu Hnow. unfold Bills.sync_recent_bills. simpl.
  assert (Nil : Bills.find_by_id (Bills.bill_id d) (Bills.docs (Bills.store w)) = Some d /\
     exists l, Bills.fetched (Bills.store w) = Bills.fetched (Bills.store w) ++ l /\
               ~ In (Bills.bill_id d) l)
    by (split; [exact Hf|exists []; rewrite app_nil_r; split; [reflexivity|simpl; tauto]]).
  destruct (existsb (Z.eqb congress) (Bills.synced w));
    [intros H; inversion H; subst; exact Nil|].
  destruct (Bills.search_bills cl congress limit) as [bl|];
    [|intros H; inversion H; subst; exact Nil].
  destruct (Bills.sync_items cl now_at 0 bl (Bills.store w) 0) as [[m|] st] eqn:S;
    intros H; inversion H; subst; simpl;
    exact (BillsFacts.sync_items_fresh_kept _ _ _ _ cl d u now_at bl Hu Hnow _ _ _ _ _ Hf S).
Qed.

Lemma fresh_bills_untouched_witness :
  Bills.find_by_id "hr1-119" (Bills.docs (Bills.store
     (Bills.mkWorld [] (Bills.mkSync [Bills.mkDoc "hr1-119" (Some 100%Z) 7] []) 0))) = Some (Bills.mkDoc "hr1-119" (Some 100%Z) 7) /\
  Bills.sync_recent_bills demo_client (fun _ => 200%Z) 119 50
     (Bills.mkWorld [] (Bills.mkSync [Bills.mkDoc "hr1-119" (Some 100%Z) 7] []) 0) =
   (1%Z, Bills.mkWorld [119%Z]
           (Bills.mkSync [Bills.mkDoc "hr1-119" (Some 100%Z) 7; Bills.mkDoc "hr2-119" (Some 200%Z) 0]
              ["hr2-119"%string]) 1) /\
  (Bills.find_by_id "hr1-119"
     [Bills.mkDoc "hr1-119" (Some 100%Z) 7; Bills.mkDoc "hr2-119" (Some 200%Z) 0] =
     Some (Bills.mkDoc "hr1-119" (Some 100%Z) 7) /\
   exists l, ["hr2-119"%string] = [] ++ l /\ ~ In "hr1-119"%string l).
Proof.
  assert (E : Bills.sync_recent_bills demo_client (fun _ => 200%Z) 119 50
     (Bills.mkWorld [] (Bills.mkSync [Bills.mkDoc "hr1-119" (Some 100%Z) 7] []) 0) =
   (1%Z, Bills.mkWorld [119%Z]
           (Bills.mkSync [Bills.mkDoc "hr1-119" (Some 100%Z) 7; Bills.mkDoc "hr2-119" (Some 200%Z) 0]
              ["hr2-119"%string]) 1)) by (vm_compute; reflexivity).
  split; [reflexivity|split; [exact E|]].
  exact (fresh_bills_untouched demo_client (fun _ => 200%Z) 119 50
           (Bills.mkWorld [] (Bills.mkSync [Bills.mkDoc "hr1-119" (Some 100%Z) 7] []) 0)
           (Bills.mkDoc "hr1-119" (Some 100%Z) 7) 100 1 _
           eq_refl eq_refl (fun _ => ltac:(vm_compute; reflexivity)) E).
Defined.

(** C6: in [fetch_bill_complete] a failed primary fetch gives [None]; when
    the primary fetch succeeds and its record transforms, a bill is produced
    whatever the summaries and subjects calls did, a raising one being passed
    to [transform_bill] as absent ([to_option] maps a raise to [None]); and in
    the sync loop an item whose primary fetch raises is skipped, the loop
    going on with the remaining items on the unchanged collection. *)
Theorem secondary_fetch_failures_tolerated {Base Summ Subj Core : Type}
    (cl : Bills.client Base Summ Subj Core) (now : Z) (c t num : string) :
  (Bills.get_bill cl c t num = Bills.Exn -> Bills.fetch_bill_complete cl now c t num = None) /\
  (forall b r, Bills.get_bill cl c t num = Bills.Ok b -> Bills.transform_base cl b = Bills.TOk r ->
   exists dd, Bills.fetch_bill_complete cl now c t num = Some dd /\
     Bills.TOk (Bills.body dd) =
     Bills.transform_bill cl b (Bills.to_option (Bills.get_bill_summaries cl c t num))
                               (Bills.to_option (Bills.get_bill_subjects cl c t num))) /\
  (forall now_at k it rest st cnt,
   Bills.li_number it = Some num -> Bills.li_congress it = c -> lower_s (Bills.li_type it) = t ->
   (String.eqb t "" || String.eqb num "") = false ->
   Bills.fresh (now_at k) (Bills.find_by_id (t ++ num ++ "-" ++ c)%string (Bills.docs st)) = false ->
   Bills.get_bill cl c t num = Bills.Exn ->
   Bills.sync_items cl now_at k (it :: rest) st cnt =
   Bills.sync_items cl now_at (S k) rest
     (Bills.mkSync (Bills.docs st) (Bills.fetched st ++ [(t ++ num ++ "-" ++ c)%string])) cnt).
Proof.
  split; [|split].
  - intros E. unfold Bills.fetch_bill_complete. rewrite E. reflexivity.
  - intros b r E T. unfold Bills.fetch_bill_complete. rewrite E.
    unfold Bills.transform_bill at 1 2. rewrite T.
    eexists; split; reflexivity.
  - intros now_at k it rest st cnt Hn Hc Ht He Hfr E.
    cbn [Bills.sync_items]. rewrite Hn, Ht, He, Hc, Hfr.
    unfold Bills.fetch_bill_complete. rewrite E. reflexivity.
Qed.

Lemma secondary_fetch_failures_tolerated_witness :
  Bills.fetch_bill_complete flaky_client 5 "119" "hr" "2" =
    Some (Bills.mkDoc "hr2-119" (Some 5%Z) 0) /\
  (exists dd, Bills.fetch_bill_complete flaky_client 5 "119" "hr" "2" = Some dd /\
     Bills.TOk (Bills.body dd) = Bills.transform_bill flaky_client tt None None) /\
  Bills.sync_items flaky_client (fun _ => 5%Z) 0
     [Bills.mkItem "HR" (Some "1") "119"; Bills.mkItem "HR" (Some "2") "119"] (Bills.mkSync [] []) 0 =
  Bills.sync_items flaky_client (fun _ => 5%Z) 1
     [Bills.mkItem "HR" (Some "2") "119"] (Bills.mkSync [] ["hr1-119"%string]) 0.
Proof.
  split; [vm_compute; reflexivity|split].
  - exact (proj1 (proj2 (secondary_fetch_failures_tolerated flaky_client 5 "119" "hr" "2"))
             tt 0 eq_refl eq_refl).
  - exact (proj2 (proj2 (secondary_fetch_failures_tolerated flaky_client 5 "119" "hr" "1"))
             (fun _ => 5%Z) 0 (Bills.mkItem "HR" (Some "1") "119")
             [Bills.mkItem "HR" (Some "2") "119"] (Bills.mkSync [] []) 0
             eq_refl eq_refl ltac:(vm_compute; reflexivity) eq_refl eq_refl eq_refl).
Defined.

(** C2 (the listing call raising): when a search below the page size
    triggers a sync of the default scope and the pass fails on the listing
    call, the scope is not marked synced, and the identical search that
    follows triggers a second sync call. *)
Theorem sync_retried_after_failed_pass {Base Summ Subj Core : Type}
    (cl : Bills.client Base Summ Subj Core) (count : list (Bills.bill_doc Core) -> Z)
    (now_at : nat -> Z) (ps : Z) (w : Bills.world Core) :
  Bills.search_bills cl 119 50 = Bills.Exn ->
  (count (Bills.docs (Bills.store w)) < ps)%Z ->
  existsb (Z.eqb 119) (Bills.synced w) = false ->
  Bills.sync_calls (snd (Bills.search_bills_counts cl count now_at None ps w)) =
    S (Bills.sync_calls w) /\
  Bills.sync_calls (snd (Bills.search_bills_counts cl count now_at None ps
                          (snd (Bills.search_bills_counts cl count now_at None ps w)))) =
    S (S (Bills.sync_calls w)).
Proof.
  intros E Hc Hs. apply Z.ltb_lt in Hc.
  unfold Bills.search_bills_counts, Bills.sync_recent_bills.
  do 2 (cbn -[existsb Z.eqb Z.ltb]; rewrite ?Hc, ?Hs, ?E).
  split; reflexivity.
Qed.

Lemma sync_retried_after_failed_pass_witness :
  (0 < 20)%Z /\
  Bills.sync_calls (snd (Bills.search_bills_counts down_client (fun _ => 0%Z) (fun _ => 0%Z) None 20
                          (snd (Bills.search_bills_counts down_client (fun _ => 0%Z) (fun _ => 0%Z) None 20
                                  (Bills.mkWorld [] (Bills.mkSync [] []) 0))))) = 2.
Proof.
  split; [lia|].
  exact (proj2 (sync_retried_after_failed_pass down_client (fun _ => 0%Z) (fun _ => 0%Z) 20
                  (Bills.mkWorld [] (Bills.mkSync [] []) 0) eq_refl ltac:(lia) eq_refl)).
Defined.

(** C4: a member search with no match reports [total_pages = 0], not the
    minimum of one page; the bill search computes [max(1, ...)] and reports
    one page for the same count and page size. *)
Theorem member_search_zero_pages :
  MemberSearch.search_members [] (MemberSearch.mkParams None None None None 1 20) =
    Done (MemberSearch.mkEnvelope 0 1 20 0) /\
  MemberSearch.bills_total_pages 0 20 = 1%Z.
Proof. split; vm_compute; reflexivity. Qed.

End Claims.

(* ------------------------------------------------------------------ *)
(** * Further properties of the code *)

Module Extras.
Import Aux MatcherFacts.

Lemma find_none_all {A} (f : A -> bool) (l : list A) :
  (forall x, In x l -> f x = false) -> find f l = None.
Proof.
  induction l as [|x l IH]; simpl; intros H; [reflexivity|].
  rewrite (H x (or_introl eq_refl)). apply IH. auto.
Qed.

Lemma ci_equal_nl_nil s :
  ci_equal_nl [] s = true -> s = [] \/ s = [nl].
Proof.
  unfold ci_equal_nl. simpl. destruct s as [|d [|e s]]; simpl; auto.
  - destruct (ceqb d nl) eqn:E; [|discriminate]. intros _. right.
    unfold ceqb in E. apply Ascii.eqb_eq in E. subst. reflexivity.
  - discriminate.
Qed.

(** X1: a name lookup that returned an id is memoised: every later call
    whose lowercased key [last_first_state_chamber] is the same (for example
    the same names in another letter case) returns that id from the cache,
    without querying the store. *)
Theorem matcher_memoizes fo c first last st ch v c' :
  Matcher.find_bioguide_by_name_state fo c first last st ch = Done (Some v, c') ->
  forall fo2 first2 last2 st2 ch2,
  Matcher.cache_key first2 last2 st2 ch2 = Matcher.cache_key first last st ch ->
  Matcher.find_bioguide_by_name_state fo2 c' first2 last2 st2 ch2 = Done (Some v, c').
Proof.
  intros E fo2 first2 last2 st2 ch2 K.
  assert (L : c' !! Matcher.cache_key first last st ch = Some v).
  { revert E. unfold Matcher.find_bioguide_by_name_state.
    destruct (c !! Matcher.cache_key first last st ch) as [w|] eqn:C.
    { intros E; inversion E; subst. exact C. }
    assert (Ins : forall m, Done (Some (bioguide_id m), <[Matcher.cache_key first last st ch := bioguide_id m]> c) =
       (Done (Some v, c') : outcome (option string * Matcher.cache)) ->
       c' !! Matcher.cache_key first last st ch = Some v).
    { intros m E; inversion E; subst. unfold Matcher.cache. apply lookup_insert_eq. }
    destruct (fo (Matcher.exact_query first last st ch)) as [[m|]| |]; try discriminate.
    - exact (Ins m).
    - destruct (fo (Matcher.partial_query last st ch)) as [[m|]| |]; try discriminate.
      exact (Ins m). }
  unfold Matcher.find_bioguide_by_name_state. rewrite K, L. reflexivity.
Qed.

Lemma matcher_memoizes_witness :
  Matcher.find_bioguide_by_name_state
    (mongo_find_one [mkMember "P000145" "Alex Padilla" "Alex" "Padilla" "CA" "D" "senate"])
    ∅ "Alex" "Padilla" "ca" "senate" =
    Done (Some "P000145"%string, <["padilla_alex_ca_senate" := "P000145"]> ∅) /\
  Matcher.find_bioguide_by_name_state (fun _ => Fails)
    (<["padilla_alex_ca_senate" := "P000145"]> ∅) "ALEX" "PADILLA" "CA" "Senate" =
    Done (Some "P000145"%string, <["padilla_alex_ca_senate" := "P000145"]> ∅).
Proof.
  assert (E : Matcher.find_bioguide_by_name_state
    (mongo_find_one [mkMember "P000145" "Alex Padilla" "Alex" "Padilla" "CA" "D" "senate"])
    ∅ "Alex" "Padilla" "ca" "senate" =
    Done (Some "P000145"%string, <["padilla_alex_ca_senate" := "P000145"]> ∅))
    by (vm_compute; reflexivity).
  split; [exact E|].
  exact (matcher_memoizes _ _ _ _ _ _ _ _ E (fun _ => Fails) "ALEX" "PADILLA" "CA" "Senate"
           ltac:(vm_compute; reflexivity)).
Defined.

(** X2: a Senate XML member record with no first or last name (the parser
    gives [""] for a missing element) is matched, when no stored member has an
    empty last name, to the first stored senator of its state: the exact
    query [^$] finds nobody and the fallback prefix [^] accepts every last
    name. *)
Theorem blank_senator_matches_first_of_state store c st v p :
  c !! Matcher.cache_key "" "" st "senate" = None ->
  (forall m, In m store -> last_name m <> ""%string /\ last_name m <> String nl ""%string) ->
  exists c', Matcher.match_senate_member (mongo_find_one store) c (Matcher.mkXml "" "" st v p) =
    Done (option_map bioguide_id
            (find (fun m => String.eqb (state m) (upper_s st) &&
                            String.eqb (chamber m) "senate") store), c').
Proof.
  intros K Hs. unfold Matcher.match_senate_member, Matcher.find_bioguide_by_name_state.
  cbn [Matcher.x_first Matcher.x_last Matcher.x_state].
  rewrite K, (find_exact store "" "" st "senate" eq_refl eq_refl).
  rewrite (find_none_all _ store).
  2:{ intros m Hm. unfold exact_match. cbn [list_ascii_of_string].
      destruct (ci_equal_nl [] (list_ascii_of_string (first_name m))); [|reflexivity].
      cbn [andb].
      destruct (ci_equal_nl [] (list_ascii_of_string (last_name m))) eqn:L; [|reflexivity].
      exfalso. destruct (Hs m Hm) as [H1 H2]. apply ci_equal_nl_nil in L.
      destruct (last_name m) as [|a [|b s]]; simpl in L; destruct L as [L|L];
        try discriminate; try (apply H1; reflexivity);
        inversion L; subst; apply H2; reflexivity. }
  rewrite (find_partial store "" st "senate" eq_refl).
  assert (Fe : find (prefix_match "" st "senate") store =
               find (fun m => String.eqb (state m) (upper_s st) && String.eqb (chamber m) "senate") store).
  { apply find_ext. intros m. reflexivity. }
  rewrite Fe. destruct (find _ store); eexists; reflexivity.
Qed.

Lemma blank_senator_matches_first_of_state_witness :
  exists c', Matcher.match_senate_member
    (mongo_find_one [mkMember "S1" "Ann Zed" "Ann" "Zed" "TX" "R" "house";
                     mkMember "S2" "Bo Yu" "Bo" "Yu" "TX" "D" "senate";
                     mkMember "S3" "Cy Xi" "Cy" "Xi" "TX" "R" "senate"])
    ∅ (Matcher.mkXml "" "" "tx" "Yea" "R") = Done (Some "S2"%string, c').
Proof.
  assert (Hs : forall m, In m [mkMember "S1" "Ann Zed" "Ann" "Zed" "TX" "R" "house";
                              mkMember "S2" "Bo Yu" "Bo" "Yu" "TX" "D" "senate";
                              mkMember "S3" "Cy Xi" "Cy" "Xi" "TX" "R" "senate"] ->
                 last_name m <> ""%string /\ last_name m <> String nl ""%string).
  { intros m Hm. simpl in Hm. repeat destruct Hm as [<-|Hm]; split; try discriminate; contradiction. }
  assert (K : (∅ : Matcher.cache) !! Matcher.cache_key "" "" "tx" "senate" = None)
    by (vm_compute; reflexivity).
  destruct (blank_senator_matches_first_of_state _ ∅ "tx" "Yea" "R" K Hs) as [c' E].
  exists c'. rewrite E. reflexivity.
Defined.

Lemma dict_get_set k k' v d :
  dict_get k (SenateVotes.dict_set k' v d) =
  if String.eqb k' k then Some v else dict_get k d.
Proof.
  unfold dict_get. induction d as [|[k0 v0] d IH]; simpl.
  - destruct (String.eqb k' k); reflexivity.
  - destruct (String.eqb k' k0) eqn:E0.
    + apply String.eqb_eq in E0; subst. simpl.
      destruct (String.eqb k0 k); reflexivity.
    + simpl. destruct (String.eqb k0 k) eqn:E1; [|exact IH].
      apply String.eqb_eq in E1; subst. rewrite E0. reflexivity.
Qed.

Lemma last_opt_cons {A} (x : A) l :
  last_opt (x :: l) = match last_opt l with Some y => Some y | None => Some x end.
Proof.
  revert x; induction l as [|y l IH]; intros x; [reflexivity|].
  change (last_opt (x :: y :: l)) with (last_opt (y :: l)). rewrite IH.
  destruct (last_opt l); reflexivity.
Qed.

(** X3: in the [member_votes] dict built from a vote's member list, the value
    under an id is the vote of the LAST entry of the list with that id and a
    non-empty vote (a later entry overwrites an earlier one), and an id with no
    such entry, or the empty id, has no value. *)
Theorem member_votes_last_wins (ms : list SenateVotes.member_vote) (k : string) :
  dict_get k (SenateVotes.member_votes_of ms) =
  option_map SenateVotes.vote
    (last_opt (List.filter (fun m => negb (String.eqb k "") &&
                                     String.eqb (SenateVotes.bioguideId m) k &&
                                     negb (String.eqb (SenateVotes.vote m) "")) ms)).
Proof.
  unfold SenateVotes.member_votes_of.
  assert (G : forall d, dict_get k (fold_left (fun d m =>
      if negb (String.eqb (SenateVotes.bioguideId m) "") && negb (String.eqb (SenateVotes.vote m) "")
      then SenateVotes.dict_set (SenateVotes.bioguideId m) (SenateVotes.vote m) d else d) ms d) =
    match last_opt (List.filter (fun m => negb (String.eqb k "") &&
                                     String.eqb (SenateVotes.bioguideId m) k &&
                                     negb (String.eqb (SenateVotes.vote m) "")) ms) with
    | Some m => Some (SenateVotes.vote m)
    | None => dict_get k d
    end).
  { induction ms as [|m ms IH]; intros d; [reflexivity|].
    cbn [fold_left List.filter]. rewrite IH.
    destruct (last_opt (List.filter _ ms)) as [m'|] eqn:L.
    - destruct (_ && _ && _); [rewrite last_opt_cons, L|rewrite L]; reflexivity.
    - destruct (negb (String.eqb k "") && String.eqb (SenateVotes.bioguideId m) k &&
                negb (String.eqb (SenateVotes.vote m) "")) eqn:Pm.
      + rewrite last_opt_cons, L.
        apply andb_true_iff in Pm as [Pm Pv]. apply andb_true_iff in Pm as [Pk Pi].
        apply String.eqb_eq in Pi. subst k. rewrite Pk, Pv. simpl.
        rewrite dict_get_set, String.eqb_refl. reflexivity.
      + rewrite L.
        destruct (negb (String.eqb (SenateVotes.bioguideId m) "") &&
                  negb (String.eqb (SenateVotes.vote m) "")) eqn:C; [|reflexivity].
        rewrite dict_get_set. destruct (String.eqb_spec (SenateVotes.bioguideId m) k) as [Ek|]; [|reflexivity].
        subst k. apply andb_true_iff in C as [C1 C2]. rewrite C1, C2 in Pm.
        rewrite ?String.eqb_refl in Pm. simpl in Pm. discriminate. }
  rewrite G. destruct (last_opt _); reflexivity.
Qed.

Lemma lstrip_all_space s : forallb is_space s = true -> Builder.lstrip s = [].
Proof.
  induction s as [|c s IH]; simpl; [reflexivity|].
  intros H. apply andb_true_iff in H as [Hc Hs]. rewrite Hc. auto.
Qed.

Lemma strip_all_space s : forallb is_space s = true -> Builder.strip s = [].
Proof. intros H. unfold Builder.strip. rewrite (lstrip_all_space s H). reflexivity. Qed.

(** X5: a search term that is empty or made only of whitespace gives the
    empty filter [{}], which matches every member document. *)
Theorem blank_term_matches_all (s : list ascii) :
  forallb is_space s = true ->
  Builder._build_name_search_query s = QAll /\
  forall m, eval_query (Builder._build_name_search_query s) m = Done true.
Proof.
  intros H. assert (E : Builder._build_name_search_query s = QAll).
  { unfold Builder._build_name_search_query, Builder._normalize_search_term.
    rewrite (strip_all_space s H). reflexivity. }
  split; [exact E|]. intros m. rewrite E. reflexivity.
Qed.

Lemma blank_term_matches_all_witness :
  forallb is_space (list_ascii_of_string "  ") = true /\
  Builder._build_name_search_query (list_ascii_of_string "  ") = QAll.
Proof.
  split; [reflexivity|].
  exact (proj1 (blank_term_matches_all (list_ascii_of_string "  ") eq_refl)).
Defined.

(** X6: a member search whose [q] is missing, empty or only whitespace
    ignores the name entirely: its total is the number of stored members
    whose state equals the upper-cased state filter, whose party equals the
    upper-cased party filter and whose chamber equals the lower-cased chamber
    filter, each filter counting only when it is given and non-empty. *)
Theorem search_without_name_term (store : list member) (p : MemberSearch.search_params) :
  match MemberSearch.q p with
  | Some v => forallb is_space (list_ascii_of_string v) = true
  | None => True
  end ->
  exists e, MemberSearch.search_members store p = Done e /\
    MemberSearch.total e =
    Z.of_nat (length (List.filter (fun m =>
      filter_ok (MemberSearch.p_state p) upper_s (state m) &&
      filter_ok (MemberSearch.p_party p) upper_s (party m) &&
      filter_ok (MemberSearch.p_chamber p) lower_s (chamber m)) store)).
Proof.
  intros Hq.
  assert (B : MemberSearch.build_query p =
              let filters := MemberSearch.base_filters p in
              match filters with [] => QAll | _ => QAnd filters end).
  { unfold MemberSearch.build_query, MemberSearch.truthy.
    destruct (MemberSearch.q p) as [v|]; [|reflexivity].
    destruct (String.eqb v ""); [reflexivity|].
    rewrite (strip_all_space _ Hq). reflexivity. }
  unfold MemberSearch.search_members, MemberSearch.count_documents. rewrite B.
  unfold MemberSearch.base_filters, MemberSearch.truthy, filter_ok.
  destruct (MemberSearch.p_state p) as [a|]; [destruct (String.eqb a "")|];
  destruct (MemberSearch.p_party p) as [b|]; try destruct (String.eqb b "");
  destruct (MemberSearch.p_chamber p) as [c|]; try destruct (String.eqb c "");
  cbn [app q_patterns flat_map check_patterns map existsb obind];
  eexists; (split; [reflexivity|]); cbn [MemberSearch.total];
  f_equal; f_equal; apply List.filter_ext; intros m; cbn [eval_q forallb get_field];
  rewrite ?andb_true_r, ?andb_assoc; reflexivity.
Qed.

Lemma search_without_name_term_witness :
  exists e, MemberSearch.search_members
    [mkMember "P000145" "Alex Padilla" "Alex" "Padilla" "CA" "D" "senate";
     mkMember "S2" "Bo Yu" "Bo" "Yu" "TX" "D" "senate"]
    (MemberSearch.mkParams (Some " ") (Some "ca") None (Some "Senate") 1 20) = Done e /\
    MemberSearch.total e = 1%Z.
Proof.
  destruct (search_without_name_term
    [mkMember "P000145" "Alex Padilla" "Alex" "Padilla" "CA" "D" "senate";
     mkMember "S2" "Bo Yu" "Bo" "Yu" "TX" "D" "senate"]
    (MemberSearch.mkParams (Some " ") (Some "ca") None (Some "Senate") 1 20) eq_refl)
    as [e [E T]].
  exists e. split; [exact E|]. rewrite T. reflexivity.
Defined.

(** *** Bill ids *)

Import Py BillIds.

Lemma las_app (a b : string) :
  list_ascii_of_string (a ++ b)%string = list_ascii_of_string a ++ list_ascii_of_string b.
Proof. induction a as [|ch a IH]; simpl; [reflexivity|]. rewrite IH. reflexivity. Qed.

Ltac char_ranges :=
  intros;
  repeat match goal with
         | H : _ && _ = true |- _ => apply andb_true_iff in H as [? ?]
         | H : (_ <=? _) = true |- _ => apply Nat.leb_le in H
         end;
  repeat match goal with
         | |- context [?a <=? ?b] => destruct (Nat.leb_spec a b)
         end; cbn; (reflexivity || lia).

Lemma digit_not_space c : is_digit c = true -> is_space c = false.
Proof. unfold is_digit, is_space. cbv zeta. char_ranges. Qed.

Lemma digit_not_lower c : is_digit c = true -> is_lower c = false.
Proof. unfold is_digit, is_lower. cbv zeta. char_ranges. Qed.

Lemma digit_ceqb c d : is_digit c = true -> is_digit d = false -> ceqb c d = false.
Proof.
  intros Hc Hd. unfold ceqb. destruct (Ascii.eqb_spec c d); [subst; congruence|reflexivity].
Qed.

Lemma forallb_rev {A} (p : A -> bool) l : forallb p (rev l) = forallb p l.
Proof.
  induction l as [|a l IH]; simpl; [reflexivity|].
  rewrite forallb_app, IH. simpl. rewrite andb_true_r, andb_comm. reflexivity.
Qed.

Lemma lstrip_digits l : forallb is_digit l = true -> Builder.lstrip l = l.
Proof.
  destruct l as [|d l]; simpl; [reflexivity|]. intros H.
  apply andb_true_iff in H as [H _]. rewrite (digit_not_space d H). reflexivity.
Qed.

Lemma strip_digits l : forallb is_digit l = true -> Builder.strip l = l.
Proof.
  intros H. unfold Builder.strip. rewrite (lstrip_digits l H).
  rewrite lstrip_digits by (rewrite forallb_rev; exact H). apply rev_involutive.
Qed.

Lemma dig_run_all a ds :
  forallb is_digit ds = true ->
  dig_run a ds = Some (fold_left (fun a c => a * 10 + digit_value c) ds a)%Z.
Proof.
  revert a; induction ds as [|d ds IH]; intros a H; simpl; [reflexivity|].
  apply andb_true_iff in H as [Hd H]. rewrite Hd. apply IH, H.
Qed.

Lemma dec_aux_spec fuel n acc :
  n < fuel ->
  exists ds, dec_aux fuel n acc = ds ++ acc /\ ds <> [] /\ forallb is_digit ds = true /\
             fold_left (fun a c => a * 10 + digit_value c)%Z ds 0%Z = Z.of_nat n.
Proof.
  revert n acc; induction fuel as [|fuel IH]; intros n acc H; [lia|].
  pose proof (Nat.mod_upper_bound n 10 ltac:(lia)) as M.
  pose proof (Nat.div_mod_eq n 10) as DM.
  set (d := ascii_of_nat (48 + n mod 10)).
  assert (Nd : nat_of_ascii d = 48 + n mod 10) by (apply Ascii.nat_ascii_embedding; lia).
  assert (Hd : is_digit d = true).
  { unfold is_digit. rewrite Nd. apply andb_true_iff; split; apply Nat.leb_le; lia. }
  assert (Vd : digit_value d = Z.of_nat (n mod 10)) by (unfold digit_value; rewrite Nd; f_equal; lia).
  cbn [dec_aux]. fold d. clearbody d. destruct (Nat.ltb_spec n 10) as [L|L].
  - exists [d]. split; [reflexivity|]. split; [discriminate|].
    cbn [forallb fold_left]. rewrite Hd, Vd. split; [reflexivity|]. rewrite Nat.mod_small by lia. lia.
  - destruct (IH (n / 10) (d :: acc)) as [ds [E [Ne [F V]]]].
    { set (q := n / 10) in *. set (r := n mod 10) in *. lia. }
    exists (ds ++ [d]). split; [rewrite E, <- app_assoc; reflexivity|].
    split; [destruct ds; simpl; discriminate|].
    rewrite forallb_app, F. cbn [forallb]. rewrite Hd. split; [reflexivity|].
    rewrite fold_left_app, V. cbn [fold_left]. rewrite Vd.
    set (q := n / 10) in *. set (r := n mod 10) in *. lia.
Qed.

Lemma str_nat_spec n :
  exists d ds, list_ascii_of_string (str_nat n) = d :: ds /\ is_digit d = true /\
    forallb is_digit ds = true /\
    fold_left (fun a c => a * 10 + digit_value c)%Z ds (digit_value d) = Z.of_nat n.
Proof.
  unfold str_nat. rewrite list_ascii_of_string_of_list_ascii.
  destruct (dec_aux_spec (S n) n [] (Nat.lt_succ_diag_r n)) as [ds [E [Ne [F V]]]].
  rewrite E, app_nil_r. destruct ds as [|d ds]; [contradiction|].
  simpl in F, V. apply andb_true_iff in F as [Hd F]. exists d, ds.
  repeat split; auto.
Qed.

Lemma str_nat_digits n : forallb is_digit (list_ascii_of_string (str_nat n)) = true.
Proof.
  destruct (str_nat_spec n) as [d [ds [E [Hd [F _]]]]]. rewrite E. simpl. rewrite Hd, F. reflexivity.
Qed.

Lemma py_int_str_nat n : py_int (list_ascii_of_string (str_nat n)) = Some (Z.of_nat n).
Proof.
  destruct (str_nat_spec n) as [d [ds [E [Hd [F V]]]]]. rewrite E.
  unfold py_int. rewrite strip_digits by (simpl; rewrite Hd, F; reflexivity).
  cbn beta iota zeta.
  rewrite (digit_ceqb d "-"%char Hd eq_refl), (digit_ceqb d "+"%char Hd eq_refl).
  cbn [snd fst]. rewrite Hd, (dig_run_all _ ds F), V. reflexivity.
Qed.

Lemma split_at_first_app c a b : ~ In c a -> split_at_first c (a ++ c :: b) = Some (a, b).
Proof.
  induction a as [|x a IH]; simpl; intros H.
  - unfold ceqb. rewrite Ascii.eqb_refl. reflexivity.
  - unfold ceqb. destruct (Ascii.eqb_spec x c); [exfalso; apply H; left; auto|].
    fold ceqb. rewrite IH by tauto. reflexivity.
Qed.

Lemma split_at_first_none c l : ~ In c l -> split_at_first c l = None.
Proof.
  induction l as [|x l IH]; simpl; intros H; [reflexivity|].
  unfold ceqb. destruct (Ascii.eqb_spec x c); [exfalso; apply H; left; auto|].
  fold ceqb. rewrite IH by tauto. reflexivity.
Qed.

Lemma split_at_first_some c l a b : split_at_first c l = Some (a, b) -> l = a ++ c :: b.
Proof.
  revert a b; induction l as [|x l IH]; simpl; intros a b H; [discriminate|].
  unfold ceqb in H. destruct (Ascii.eqb_spec x c).
  - inversion H; subst. reflexivity.
  - destruct (split_at_first c l) as [[a' b']|] eqn:S; [|discriminate].
    inversion H; subst. simpl. f_equal. apply IH. reflexivity.
Qed.

Lemma rsplit1_last c a b : ~ In c b -> rsplit1 c (a ++ c :: b) = Some (a, b).
Proof.
  intros H. unfold rsplit1. rewrite rev_app_distr. simpl. rewrite <- app_assoc. simpl.
  rewrite split_at_first_app by (rewrite <- in_rev; exact H). simpl.
  rewrite !rev_involutive. reflexivity.
Qed.

Lemma rsplit1_none c s : ~ In c s -> rsplit1 c s = None.
Proof.
  intros H. unfold rsplit1. rewrite split_at_first_none; [reflexivity|].
  rewrite <- in_rev. exact H.
Qed.

Lemma rsplit1_some c s a b : rsplit1 c s = Some (a, b) -> s = a ++ c :: b.
Proof.
  unfold rsplit1. destruct (split_at_first c (rev s)) as [[x y]|] eqn:S; simpl; [|discriminate].
  intros H; inversion H; subst. apply split_at_first_some in S.
  rewrite <- (rev_involutive s), S, rev_app_distr. simpl. rewrite <- app_assoc. reflexivity.
Qed.

Lemma span_app p a b :
  forallb p a = true -> match b with [] => true | c :: _ => negb (p c) end = true ->
  span p (a ++ b) = (a, b).
Proof.
  induction a as [|x a IH]; simpl; intros Ha Hb.
  - destruct b as [|c b]; [reflexivity|]. simpl. destruct (p c); [discriminate|reflexivity].
  - apply andb_true_iff in Ha as [Hx Ha]. rewrite Hx, IH by assumption. reflexivity.
Qed.

Lemma parse_bill_id_canonical_gen (t x : string) (n c : nat) :
  t <> ""%string ->
  forallb is_lower (list_ascii_of_string t) = true ->
  match list_ascii_of_string x with [] => true | ch :: _ => negb (is_digit ch) end = true ->
  ~ In "-"%char (list_ascii_of_string x) ->
  parse_bill_id (t ++ str_nat n ++ x ++ "-" ++ str_nat c)%string =
    Some (Z.of_nat c, t, Z.of_nat n).
Proof.
  intros Ht Hl Hx Hdash. unfold parse_bill_id. rewrite !las_app.
  change (list_ascii_of_string "-") with ["-"%char]. cbn [app].
  assert (ST : string_of_list_ascii (list_ascii_of_string t) = t)
    by apply string_of_list_ascii_of_string.
  assert (NT : list_ascii_of_string t <> []) by (destruct t; [contradiction|discriminate]).
  remember (list_ascii_of_string t) as T eqn:ET0. clear ET0.
  set (X := list_ascii_of_string x) in *.
  pose proof (str_nat_digits c) as Fc.
  set (C := list_ascii_of_string (str_nat c)) in *.
  replace (T ++ list_ascii_of_string (str_nat n) ++ X ++ "-"%char :: C)
    with ((T ++ list_ascii_of_string (str_nat n) ++ X) ++ "-"%char :: C)
    by (rewrite <- !app_assoc; reflexivity).
  rewrite rsplit1_last.
  2:{ intros I. rewrite forallb_forall in Fc. specialize (Fc _ I). discriminate. }
  unfold C. rewrite py_int_str_nat.
  destruct (str_nat_spec n) as [d [ds [E [Hd [F _]]]]].
  rewrite (span_app is_lower T); [| exact Hl | rewrite E; cbn; rewrite (digit_not_lower d Hd); reflexivity].
  rewrite (span_app is_digit (list_ascii_of_string (str_nat n)) X);
    [| rewrite E; cbn [forallb]; rewrite Hd, F; reflexivity | exact Hx].
  rewrite py_int_str_nat. rewrite E.
  destruct T as [|a T']; [contradiction|]. cbn [option_map]. rewrite ST. reflexivity.
Qed.

(** X7: a bill id built as the type [t] (lower-case letters), the number
    [str(n)], any text [x] that neither starts with a digit nor contains
    a dash, a dash and the congress [str(c)] is parsed by [get_bill] and
    [get_bill_actions] into congress [c], type [t] and number [n]. *)
Lemma parse_bill_id_canonical (t x : string) (n c : nat) :
  t <> ""%string ->
  forallb is_lower (list_ascii_of_string t) = true ->
  match list_ascii_of_string x with [] => true | ch :: _ => negb (is_digit ch) end = true ->
  ~ In "-"%char (list_ascii_of_string x) ->
  parse_bill_id (t ++ str_nat n ++ x ++ "-" ++ str_nat c)%string =
    Some (Z.of_nat c, t, Z.of_nat n).
Proof. exact (parse_bill_id_canonical_gen t x n c). Qed.

Lemma parse_bill_id_canonical_witness :
  parse_bill_id "hjres12-118" = Some (118%Z, "hjres", 12%Z) /\
  parse_bill_id "hr0005xyz-0119" = Some (119%Z, "hr", 5%Z).
Proof.
  split.
  - exact (parse_bill_id_canonical "hjres" "" 12 118 ltac:(discriminate) eq_refl eq_refl
             ltac:(simpl; tauto)).
  - exact (parse_bill_id_canonical "hr" "xyz" 5 119 ltac:(discriminate) eq_refl eq_refl
             ltac:(simpl; intuition discriminate)).
Defined.

Lemma get_bill_actions_rejects_gen (api : actions_client) (s : string) (limit : Z) :
  ~ In "-"%char (list_ascii_of_string s) \/
  (exists ch r, list_ascii_of_string s = ch :: r /\ is_lower ch = false) ->
  get_bill_actions api s limit = invalid_format.
Proof.
  intros H. unfold get_bill_actions, parse_bill_id.
  destruct H as [H | [ch [r [E L]]]].
  - rewrite rsplit1_none by exact H. reflexivity.
  - destruct (rsplit1 "-"%char (list_ascii_of_string s)) as [[a b]|] eqn:R; [|reflexivity].
    apply rsplit1_some in R. destruct (py_int b); [|reflexivity].
    destruct a as [|a0 a'].
    + reflexivity.
    + rewrite E in R. inversion R; subst. cbn [span]. rewrite L.
      destruct (span is_digit (a0 :: a')); reflexivity.
Qed.

(** X8: [get_bill_actions] answers ["Invalid bill ID format"] with no
    results, whatever the client, when the id has no dash or does not
    start with a lower-case ASCII letter (an upper-case type included):
    the client is not called. *)
Lemma get_bill_actions_rejects (api : actions_client) (s : string) (limit : Z) :
  ~ In "-"%char (list_ascii_of_string s) \/
  (exists ch r, list_ascii_of_string s = ch :: r /\ is_lower ch = false) ->
  get_bill_actions api s limit = invalid_format.
Proof. exact (get_bill_actions_rejects_gen api s limit). Qed.

Lemma get_bill_actions_rejects_witness :
  get_bill_actions (fun _ _ _ _ => AOk None) "HR1234-118" 20 = invalid_format /\
  get_bill_actions (fun _ _ _ _ => AOk None) "hr1234" 20 = invalid_format.
Proof.
  split.
  - apply get_bill_actions_rejects. right. exists "H"%char, (list_ascii_of_string "R1234-118").
    split; reflexivity.
  - apply get_bill_actions_rejects. left. simpl. intuition discriminate.
Defined.

(** *** The chamber sync loop *)

Import VoteSync.

Lemma process_batch_bounds process votes s e s' e' :
  process_batch process votes s e = (s', e') ->
  (s <= s' <= s + Z.of_nat (length votes))%Z.
Proof.
  revert s e; induction votes as [|v rest IH]; intros s e H; cbn [process_batch] in H.
  - inversion H; subst. simpl. lia.
  - cbn [length]. rewrite Nat2Z.inj_succ.
    destruct (rollCallNumber v) as [r|].
    + destruct (r =? 0)%Z; [apply IH in H; lia|].
      destruct (process v); apply IH in H; lia.
    + apply IH in H. lia.
Qed.

Lemma chamber_loop_bounded fetch process limit fuel s e o s' e' :
  (forall l o vs, (0 < l)%Z -> fetch l o = Some vs -> (Z.of_nat (length vs) <= l)%Z) ->
  (0 <= s <= Z.max 0 limit)%Z ->
  chamber_loop fetch process limit fuel s e o = Some (s', e') ->
  (0 <= s' <= Z.max 0 limit)%Z.
Proof.
  intros Hf. revert s e o; induction fuel as [|fuel IH]; intros s e o Hs H;
    cbn [chamber_loop] in H; [discriminate|].
  destruct (Z.ltb_spec s limit) as [L|L]; [|inversion H; subst; exact Hs].
  destruct (fetch (Z.min page_size (limit - s)) o) as [votes|] eqn:F;
    [|inversion H; subst; exact Hs].
  destruct votes as [|v vs]; [inversion H; subst; exact Hs|].
  apply Hf in F; [|unfold page_size; lia].
  destruct (process_batch process (v :: vs) s e) as [s1 e1] eqn:B.
  apply process_batch_bounds in B.
  assert (Hs1 : (0 <= s1 <= Z.max 0 limit)%Z) by (unfold page_size in F; lia).
  destruct (Z.leb_spec limit s1); [inversion H; subst; exact Hs1|].
  exact (IH s1 e1 _ Hs1 H).
Qed.

(** X9: when the votes API returns no more votes than the [limit] it is
    asked for, [_sync_chamber_votes] never reports more synced votes than
    its own [limit] (and none when [limit <= 0]). *)
Lemma sync_chamber_votes_within_limit fetch process limit fuel s e :
  (forall l o vs, (0 < l)%Z -> fetch l o = Some vs -> (Z.of_nat (length vs) <= l)%Z) ->
  _sync_chamber_votes fetch process limit fuel = Some (s, e) ->
  (0 <= s <= Z.max 0 limit)%Z.
Proof.
  intros Hf H. unfold _sync_chamber_votes in H.
  exact (chamber_loop_bounded fetch process limit fuel 0 0 0 s e Hf ltac:(lia) H).
Qed.

Definition demo_votes : list vote_item :=
  map (fun r => mkVoteItem (Some r) None) [1; 2; 0; 3; 4; 5]%Z.

Lemma sync_chamber_votes_within_limit_witness :
  _sync_chamber_votes
    (fun l o => Some (firstn (Z.to_nat l) (skipn (Z.to_nat o) demo_votes)))
    (fun v => negb (match rollCallNumber v with Some r => Z.eqb r 2 | None => false end))
    3 10 = Some (3%Z, 1%Z) /\ (0 <= 3 <= Z.max 0 3)%Z.
Proof.
  split; [reflexivity|].
  apply (sync_chamber_votes_within_limit
    (fun l o => Some (firstn (Z.to_nat l) (skipn (Z.to_nat o) demo_votes)))
    (fun v => negb (match rollCallNumber v with Some r => Z.eqb r 2 | None => false end))
    3 10 3 1).
  - intros l o vs Hl H. inversion H; subst. rewrite length_firstn. lia.
  - reflexivity.
Defined.

Lemma chamber_loop_requests fetch fetch' process limit fuel s e o :
  (forall l o, (1 <= l <= 100)%Z -> (0 <= o)%Z -> fetch l o = fetch' l o) ->
  (0 <= o)%Z ->
  chamber_loop fetch process limit fuel s e o = chamber_loop fetch' process limit fuel s e o.
Proof.
  intros Hf. revert s e o; induction fuel as [|fuel IH]; intros s e o Ho;
    cbn [chamber_loop]; [reflexivity|].
  destruct (Z.ltb_spec s limit); [|reflexivity].
  rewrite Hf by (unfold page_size; lia).
  destruct (fetch' (Z.min page_size (limit - s)) o) as [[|v vs]|]; try reflexivity.
  destruct (process_batch process (v :: vs) s e) as [s1 e1].
  destruct (limit <=? s1)%Z; [reflexivity|]. apply IH. lia.
Qed.

(** X10: [_sync_chamber_votes] only ever asks the votes API for pages of
    1 to 100 votes at a non-negative offset: two APIs that answer alike on
    such requests give the same [(synced, errors)]. *)
Lemma sync_chamber_votes_requests fetch fetch' process limit fuel :
  (forall l o, (1 <= l <= 100)%Z -> (0 <= o)%Z -> fetch l o = fetch' l o) ->
  _sync_chamber_votes fetch process limit fuel = _sync_chamber_votes fetch' process limit fuel.
Proof.
  intros Hf. unfold _sync_chamber_votes. apply chamber_loop_requests; [exact Hf|lia].
Qed.

Lemma sync_chamber_votes_requests_witness :
  _sync_chamber_votes
    (fun l o => if ((1 <=? l) && (l <=? 100) && (0 <=? o))%Z
                then Some (firstn (Z.to_nat l) (skipn (Z.to_nat o) demo_votes)) else None)
    (fun _ => true) 250 10 =
  _sync_chamber_votes
    (fun l o => Some (firstn (Z.to_nat l) (skipn (Z.to_nat o) demo_votes)))
    (fun _ => true) 250 10.
Proof.
  apply sync_chamber_votes_requests. intros l o Hl Ho.
  destruct (Z.leb_spec 1 l), (Z.leb_spec l 100), (Z.leb_spec 0 o); try lia. reflexivity.
Defined.

(** *** Vote ids *)

Lemma str_nat_inj n m : str_nat n = str_nat m -> n = m.
Proof.
  intros H. apply (f_equal (fun x => py_int (list_ascii_of_string x))) in H.
  rewrite !py_int_str_nat in H. inversion H. lia.
Qed.

Lemma str_nat_no_dash n : ~ In "-"%char (list_ascii_of_string (str_nat n)).
Proof.
  intros I. pose proof (str_nat_digits n) as F. rewrite forallb_forall in F.
  specialize (F _ I). discriminate.
Qed.

Lemma str_int_nonneg z : (0 <= z)%Z -> str_int z = str_nat (Z.to_nat z).
Proof. intros H. unfold str_int. destruct (Z.ltb_spec z 0); [lia|reflexivity]. Qed.

Lemma dash_split a a' b b' :
  ~ In "-"%char a -> ~ In "-"%char a' -> a ++ "-"%char :: b = a' ++ "-"%char :: b' ->
  a = a' /\ b = b'.
Proof.
  revert a'; induction a as [|x a IH]; intros a' Ha Ha' H; destruct a' as [|x' a']; simpl in H.
  - inversion H. auto.
  - inversion H; subst. exfalso. apply Ha'. left. reflexivity.
  - inversion H; subst. exfalso. apply Ha. left. reflexivity.
  - inversion H; subst. destruct (IH a') as [-> ->]; auto; simpl in *; tauto.
Qed.

(** X11: the [vote_id] under which [_store_vote] upserts a vote
    determines the vote: two votes with non-negative congress, session and
    roll numbers share an id only when both are House votes or both are not,
    and their three numbers agree. *)
Lemma vote_id_injective ch1 ch2 c1 s1 r1 c2 s2 r2 :
  (0 <= c1)%Z -> (0 <= s1)%Z -> (0 <= r1)%Z ->
  (0 <= c2)%Z -> (0 <= s2)%Z -> (0 <= r2)%Z ->
  vote_id_of ch1 c1 s1 r1 = vote_id_of ch2 c2 s2 r2 ->
  String.eqb ch1 "house" = String.eqb ch2 "house" /\ c1 = c2 /\ s1 = s2 /\ r1 = r2.
Proof.
  intros Hc1 Hs1 Hr1 Hc2 Hs2 Hr2 H. unfold vote_id_of in H.
  rewrite !str_int_nonneg in H by assumption.
  apply (f_equal list_ascii_of_string) in H. rewrite !las_app in H.
  change (list_ascii_of_string "-") with ["-"%char] in H. cbn [app] in H.
  assert (HC : forall (b : bool) l,
    list_ascii_of_string (if b then "h" else "s")%string ++ l =
    (if b then "h"%char else "s"%char) :: l) by (intros []; reflexivity).
  rewrite !HC in H.
  assert (L : forall n m, list_ascii_of_string (str_nat n) = list_ascii_of_string (str_nat m) ->
                         n = m).
  { intros n m E. apply (f_equal string_of_list_ascii) in E.
    rewrite !string_of_list_ascii_of_string in E. exact (str_nat_inj n m E). }
  destruct (String.eqb ch1 "house"), (String.eqb ch2 "house");
    try discriminate H; injection H as H'.
  all: destruct (dash_split _ _ _ _ (str_nat_no_dash _) (str_nat_no_dash _) H') as [Ec H2];
       destruct (dash_split _ _ _ _ (str_nat_no_dash _) (str_nat_no_dash _) H2) as [Es Er].
  all: apply L in Ec, Es, Er; repeat split; lia.
Qed.

Lemma vote_id_injective_witness :
  vote_id_of "senate" 118 1 12 <> vote_id_of "senate" 118 11 2.
Proof.
  intros H. destruct (vote_id_injective "senate" "senate" 118 1 12 118 11 2) as [_ [_ [E _]]];
    try lia. exact H.
Defined.

(** *** Bill ids written by [_transform_vote] *)

Lemma alpha_lower c : is_alpha c = true -> is_lower (lower c) = true.
Proof.
  unfold is_alpha, is_lower, lower. cbv zeta. intros H.
  destruct (Nat.leb_spec 65 (nat_of_ascii c)), (Nat.leb_spec (nat_of_ascii c) 90);
    cbn [andb orb] in *.
  - rewrite Ascii.nat_ascii_embedding by lia.
    apply andb_true_iff; split; apply Nat.leb_le; lia.
  - exact H.
  - exact H.
  - exact H.
Qed.

Lemma lower_s_letters t :
  forallb is_alpha (list_ascii_of_string t) = true ->
  forallb is_lower (list_ascii_of_string (lower_s t)) = true.
Proof.
  unfold lower_s. rewrite list_ascii_of_string_of_list_ascii.
  induction (list_ascii_of_string t) as [|c l IH]; simpl; [reflexivity|].
  intros H. apply andb_true_iff in H as [Hc H]. rewrite alpha_lower, IH by assumption.
  reflexivity.
Qed.

Lemma lower_s_nonempty t : t <> ""%string -> lower_s t <> ""%string.
Proof. destruct t; [contradiction|]. intros _. unfold lower_s. simpl. discriminate. Qed.

Lemma str_nat_nonempty n : str_nat n <> ""%string.
Proof.
  intros E. destruct (str_nat_spec n) as [d [ds [L _]]]. rewrite E in L. discriminate.
Qed.

(** X12: a vote whose [legislationType] is a word of ASCII letters (such
    as ["HR"] or ["hjres"]) and whose [legislationNumber] is the decimal
    [str(n)] gets from [_transform_vote] a [bill_id] that [get_bill] and
    [get_bill_actions] parse back into the vote's congress, the lower-cased
    type and [n]. *)
Lemma vote_bill_id_parses (leg_type : string) (n congress : nat) (bill : option bill_ref) :
  leg_type <> ""%string ->
  forallb is_alpha (list_ascii_of_string leg_type) = true ->
  exists bid,
    vote_bill_id (Some (str_nat n)) (Some leg_type) bill (Z.of_nat congress) = Some bid /\
    parse_bill_id bid = Some (Z.of_nat congress, lower_s leg_type, Z.of_nat n).
Proof.
  intros Hne Ha. unfold vote_bill_id.
  destruct (String.eqb_spec (str_nat n) "") as [E|_]; [exfalso; exact (str_nat_nonempty n E)|].
  destruct (String.eqb_spec leg_type "") as [E|_]; [contradiction|].
  cbn [negb andb]. eexists. split; [reflexivity|].
  rewrite str_int_nonneg, Nat2Z.id by lia.
  exact (parse_bill_id_canonical_gen (lower_s leg_type) "" n congress
           (lower_s_nonempty _ Hne) (lower_s_letters _ Ha) eq_refl (fun I => I)).
Qed.

Lemma vote_bill_id_parses_witness :
  vote_bill_id (Some "3076") (Some "HR") None 118 = Some "hr3076-118" /\
  parse_bill_id "hr3076-118" = Some (118%Z, "hr", 3076%Z).
Proof.
  destruct (vote_bill_id_parses "HR" 3076 118 None ltac:(discriminate) eq_refl)
    as [bid [E P]].
  assert (S : str_nat 3076 = "3076") by (vm_compute; reflexivity).
  rewrite S in E. change (Z.of_nat 118) with 118%Z in E.
  rewrite E in *. injection E as <-. split; [reflexivity|]. exact P.
Defined.

(** *** Senate totals from the result text *)

Import XmlTotals.

Lemma search_totals_at l N1 N2 y n rest :
  ~ In "("%char l ->
  forallb is_digit N1 = true -> N1 <> [] -> py_int N1 = Some y ->
  forallb is_digit N2 = true -> N2 <> [] -> py_int N2 = Some n ->
  search_totals (l ++ "("%char :: N1 ++ "-"%char :: N2 ++ ")"%char :: rest) = Some (y, n).
Proof.
  intros Hl F1 NE1 P1 F2 NE2 P2. induction l as [|c l IH].
  - cbn [app search_totals]. change (ceqb "("%char "("%char) with true. cbn beta iota.
    unfold totals_at. rewrite (span_app is_digit N1); [|exact F1|reflexivity].
    destruct N1 as [|d1 ds1]; [contradiction|]. cbn beta iota zeta.
    change (ceqb "-"%char "-"%char) with true. cbn beta iota.
    rewrite (span_app is_digit N2); [|exact F2|reflexivity].
    destruct N2 as [|d2 ds2]; [contradiction|]. cbn beta iota zeta.
    change (ceqb ")"%char ")"%char) with true. cbn beta iota.
    rewrite P1, P2. reflexivity.
  - cbn [app search_totals]. destruct (ceqb c "("%char) eqn:C.
    + unfold ceqb in C. apply Ascii.eqb_eq in C. subst. exfalso. apply Hl. left. reflexivity.
    + apply IH. intros I. apply Hl. right. exact I.
Qed.

Lemma str_nat_list_nonempty n : list_ascii_of_string (str_nat n) <> [].
Proof. destruct (str_nat_spec n) as [d [ds [E _]]]. rewrite E. discriminate. Qed.

(** X13: [_parse_totals_from_result] reads a result text such as
    ["Cloture Motion Agreed to (73-15)"]: when the text before the first
    parenthesis has none, the totals are yea [73], nay [15] and zero
    present and absent, whatever follows the closing parenthesis. *)
Lemma parse_totals_from_result_counts (p rest : string) (yea nay : nat) :
  ~ In "("%char (list_ascii_of_string p) ->
  _parse_totals_from_result (p ++ "(" ++ str_nat yea ++ "-" ++ str_nat nay ++ ")" ++ rest)%string =
    (Z.of_nat yea, Z.of_nat nay, 0%Z, 0%Z).
Proof.
  intros Hp. unfold _parse_totals_from_result. rewrite !las_app.
  change (list_ascii_of_string "(") with ["("%char].
  change (list_ascii_of_string "-") with ["-"%char].
  change (list_ascii_of_string ")") with [")"%char]. cbn [app].
  rewrite (search_totals_at _ _ _ (Z.of_nat yea) (Z.of_nat nay) _ Hp
             (str_nat_digits yea) (str_nat_list_nonempty yea) (py_int_str_nat yea)
             (str_nat_digits nay) (str_nat_list_nonempty nay) (py_int_str_nat nay)).
  reflexivity.
Qed.

Lemma parse_totals_from_result_counts_witness :
  _parse_totals_from_result "Cloture Motion Agreed to (73-15)" = (73%Z, 15%Z, 0%Z, 0%Z).
Proof.
  assert (A : str_nat 73 = "73") by (vm_compute; reflexivity).
  assert (B : str_nat 15 = "15") by (vm_compute; reflexivity).
  pose proof (parse_totals_from_result_counts "Cloture Motion Agreed to " "" 73 15
                ltac:(simpl; intuition discriminate)) as H.
  rewrite A, B in H. exact H.
Defined.

(** *** Bill views *)

Import BillViews.

(** X14: [BillActionsView] answers a bill id with no dash, or one that
    does not start with a lower-case ASCII letter, with status 500 and the
    body ["Invalid bill ID format"] (when the [limit] parameter is absent
    or an integer), without calling the Congress.gov API. *)
Lemma bill_actions_view_bad_id_500 (api : actions_client) (s : string) (limit_param : option string) :
  ~ In "-"%char (list_ascii_of_string s) \/
  (exists ch r, list_ascii_of_string s = ch :: r /\ is_lower ch = false) ->
  int_param limit_param 20 <> None ->
  BillActionsView_get api s limit_param = (500%Z, Result invalid_format).
Proof.
  intros H L. unfold BillActionsView_get.
  destruct (int_param limit_param 20) as [limit|]; [|contradiction].
  rewrite (get_bill_actions_rejects_gen api s limit H). reflexivity.
Qed.

Lemma bill_actions_view_bad_id_500_witness :
  BillActionsView_get (fun _ _ _ _ => AOk None) "HR1234-118" (Some " 5 ") =
    (500%Z, Result invalid_format).
Proof.
  apply bill_actions_view_bad_id_500.
  - right. exists "H"%char, (list_ascii_of_string "R1234-118"). split; reflexivity.
  - discriminate.
Defined.

(** X15: [BillSearchView] calls [BillService.search_bills] only with
    [page >= 1] and [1 <= page_size <= 100]: two search services that agree
    on such arguments give the same response to every request. *)
Lemma bill_search_view_validates {R : Type}
    (search search' : option string -> option string -> option string -> option Z -> Z -> Z -> sres R)
    q party subject congress page page_size :
  (forall q party subject cg pg ps, (1 <= pg)%Z -> (1 <= ps <= 100)%Z ->
     search q party subject cg pg ps = search' q party subject cg pg ps) ->
  BillSearchView_get search q party subject congress page page_size =
  BillSearchView_get search' q party subject congress page page_size.
Proof.
  intros H. unfold BillSearchView_get.
  destruct (int_param page 1) as [pg|]; [|reflexivity].
  destruct (int_param page_size 20) as [ps|]; [|reflexivity].
  destruct (Z.ltb_spec pg 1); [reflexivity|].
  destruct (Z.ltb_spec ps 1), (Z.ltb_spec 100 ps); cbn [orb]; try reflexivity.
  destruct (match congress with
            | Some c => if String.eqb c "" then Some None
                        else option_map Some (py_int (list_ascii_of_string c))
            | None => Some None
            end) as [cg|]; [|reflexivity].
  rewrite H by lia. reflexivity.
Qed.

Lemma bill_search_view_validates_witness :
  BillSearchView_get (fun _ _ _ _ pg ps => if (1 <=? pg)%Z && (ps <=? 100)%Z then SOk (pg, ps) else SRaise)
    None None None (Some "118") (Some "2") (Some "500") =
  BillSearchView_get (fun _ _ _ _ pg ps => SOk (pg, ps))
    None None None (Some "118") (Some "2") (Some "500").
Proof.
  apply bill_search_view_validates. intros _ _ _ _ pg ps H1 H2.
  destruct (Z.leb_spec 1 pg), (Z.leb_spec ps 100); try lia. reflexivity.
Defined.

(** *** Member search pages *)

(** X16: with a page size of at least one (what [MemberSearchParams]
    enforces), the [total_pages] of [search_members] is the least number of
    pages of [page_size] results that hold all [total] matches:
    [(total_pages - 1) * page_size < total <= total_pages * page_size]. *)
Lemma search_members_pages_cover store p e :
  (1 <= MemberSearch.page_size p)%Z ->
  MemberSearch.search_members store p = Done e ->
  ((MemberSearch.total_pages e - 1) * MemberSearch.page_size p < MemberSearch.total e <=
   MemberSearch.total_pages e * MemberSearch.page_size p)%Z.
Proof.
  intros Hps. unfold MemberSearch.search_members.
  destruct (MemberSearch.count_documents store (MemberSearch.build_query p)) as [t| |];
    cbn [obind]; intros H; inversion H; subst; clear H; cbn [MemberSearch.total MemberSearch.total_pages].
  set (ps := MemberSearch.page_size p) in *.
  pose proof (Z.div_mod (t + ps - 1) ps ltac:(lia)) as D.
  pose proof (Z.mod_pos_bound (t + ps - 1) ps ltac:(lia)) as M.
  set (tp := ((t + ps - 1) / ps)%Z) in *. set (r := ((t + ps - 1) mod ps)%Z) in *.
  nia.
Qed.

Lemma search_members_pages_cover_witness :
  MemberSearch.search_members
    [mkMember "A1" "Ann Lee" "Ann" "Lee" "CA" "D" "house";
     mkMember "B2" "Bo Lee" "Bo" "Lee" "CA" "R" "house";
     mkMember "C3" "Cy Lee" "Cy" "Lee" "CA" "D" "senate"]
    (MemberSearch.mkParams None (Some "ca") None None 1 2) =
    Done (MemberSearch.mkEnvelope 3 1 2 2) /\
  ((2 - 1) * 2 < 3 <= 2 * 2)%Z.
Proof.
  split; [reflexivity|].
  exact (search_members_pages_cover
    [mkMember "A1" "Ann Lee" "Ann" "Lee" "CA" "D" "house";
     mkMember "B2" "Bo Lee" "Bo" "Lee" "CA" "R" "house";
     mkMember "C3" "Cy Lee" "Cy" "Lee" "CA" "D" "senate"]
    (MemberSearch.mkParams None (Some "ca") None None 1 2)
    (MemberSearch.mkEnvelope 3 1 2 2) ltac:(cbn; lia) eq_refl).
Defined.

End Extras.
